(** * The role/permission authorization cache of pkg/authorization

    A shallow embedding of [Authorizer] (package [authorization]): the
    per-user permission cache, the decision API ([HasPermission],
    [HasAnyPermission], [HasAllPermissions], [HasRole], [GetUserRoles]),
    the mutation API ([AssignRole], [RemoveRole]) and the expiry sweep
    ([cleanExpiredCache]).

    The Go methods have a pointer receiver and talk to a database and to
    the wall clock; here they are computations in a state monad over the
    receiver's fields and an explicit world (clock, store, log of store
    calls).  The reader/writer mutex is not modelled: every method runs
    to completion on its own. *)

From Stdlib Require Import ZArith Lia Ascii String.
From stdpp Require Import gmap strings list fin_maps.

Open Scope Z_scope.
Open Scope string_scope.

(** ** Package [time] *)

Module time.

(** An instant, in nanoseconds on the clock [Now] reads. *)
Definition Time := Z.

(** [time.Duration] is an [int64] count of nanoseconds. *)
Definition Duration := Z.

Definition minDuration : Duration := - 2 ^ 63.
Definition maxDuration : Duration := 2 ^ 63 - 1.

(** [t.Sub(u)]: the difference, saturated to the range of a
    [Duration]. *)
Definition Sub (t u : Time) : Duration :=
  if bool_decide (maxDuration < t - u) then maxDuration
  else if bool_decide (t - u < minDuration) then minDuration
  else t - u.

End time.

(** ** Errors

    Go's [error] values as far as the package builds and inspects them:
    leaf errors ([errors.New], the sentinels of [database/sql] and
    [context], parse errors of [uuid]) and the wrapping done by
    [fmt.Errorf("<msg>: %w", err)]. *)

Inductive error : Type :=
| errors_New (msg : string)
| fmt_Errorf_w (msg : string) (err : error).

Definition error_eqb : error -> error -> bool :=
  fix go (e1 e2 : error) : bool :=
    match e1, e2 with
    | errors_New m1, errors_New m2 => bool_decide (m1 = m2)
    | fmt_Errorf_w m1 i1, fmt_Errorf_w m2 i2 => bool_decide (m1 = m2) && go i1 i2
    | _, _ => false
    end.

(** [errors.Is(err, target)]: [target] occurs in the chain of [err].
    Go compares sentinels by identity; here a sentinel is identified by
    its message. *)
Fixpoint errors_Is (err target : error) : bool :=
  error_eqb err target ||
  match err with
  | errors_New _ => false
  | fmt_Errorf_w _ inner => errors_Is inner target
  end.

Definition sql_ErrNoRows : error := errors_New "sql: no rows in result set".
Definition sql_ErrConnDone : error := errors_New "sql: connection is already closed".
Definition context_Canceled : error := errors_New "context canceled".

(** ** Data model *)

Record Permission : Type := {
  Name : string;
  Resource : string;
  Action : string
}.

Record UserPermissions : Type := {
  Permissions : list Permission;
  LoadedAt : time.Time
}.

(** The fields of [Authorizer] the methods read and write.  [db] is a
    handle to the store, whose state lives in the world below; [logger]
    is never used by the methods. *)
Record Authorizer : Type := {
  cache : gmap string UserPermissions;
  cacheTTL : time.Duration;
  enableCaching : bool
}.

(** ** The collaborators

    [uuid.Parse] and the relational store behind [database.TracedDB] are
    not part of the package.  [DB] is the state of the store as a call
    sees it: its rows and whether it can be reached; [Context] is Go's
    [context.Context], handed to every store call.  Each field of the
    store is one of the five SQL statements of the package:
    - [db_permissions]: the [SELECT DISTINCT p.name, p.resource,
      p.action ...] of [loadUserPermissions], as the destination slice
      and the error [SelectContext] leaves;
    - [db_role_exists]: the [SELECT EXISTS(...)] of [HasRole];
    - [db_roles]: the [SELECT r.name ... ORDER BY r.name] of
      [GetUserRoles];
    - [db_assign], [db_remove]: the [INSERT ... ON CONFLICT DO NOTHING]
      of [AssignRole] and the [DELETE] of [RemoveRole], as the store
      after the statement and its error;
    - [db_latency]: the time a round trip to the store takes. *)

Class Env : Type := {
  UUID : Type;
  uuid_Parse : string -> UUID + error;
  Context : Type;
  DB : Type;
  db_permissions : DB -> Context -> UUID -> list Permission * option error;
  db_role_exists : DB -> Context -> UUID -> string -> bool * option error;
  db_roles : DB -> Context -> UUID -> list string * option error;
  db_assign : DB -> Context -> UUID -> string -> DB * option error;
  db_remove : DB -> Context -> UUID -> string -> DB * option error;
  db_latency : DB -> time.Duration
}.

Section Authorization.

Context `{env : Env}.

(** A call that reached the store. *)
Inductive StoreCall : Type :=
| SelectPermissions (uid : UUID)
| GetRoleExists (uid : UUID) (roleName : string)
| SelectRoles (uid : UUID)
| ExecAssign (uid : UUID) (roleName : string)
| ExecRemove (uid : UUID) (roleName : string).

(** Everything outside the Authorizer: the clock [time.Now] reads,
    the store, and the store calls made so far, oldest first. *)
Record World : Type := {
  clock : time.Time;
  db : DB;
  queries : list StoreCall
}.

Record State : Type := {
  auth : Authorizer;
  world : World
}.

(** Computations over the receiver and the world. *)
Definition Op (A : Type) : Type := State -> A * State.

Definition ret {A} (x : A) : Op A := fun s => (x, s).

Definition bind {A B} (m : Op A) (k : A -> Op B) : Op B :=
  fun s => let '(x, s') := m s in k x s'.

Definition get_auth : Op Authorizer := fun s => (auth s, s).

Definition put_auth (a : Authorizer) : Op unit :=
  fun s => (tt, {| auth := a; world := world s |}).

#[global] Instance Op_ret : MRet Op := @ret.
#[global] Instance Op_bind : MBind Op := fun A B k m => bind m k.

End Authorization.

Section Methods.

Context `{env : Env}.

(** [time.Now()]. *)
Definition time_Now : Op time.Time := fun s => (clock (world s), s).

(** [time.Since(t)] is [time.Now().Sub(t)]. *)
Definition time_Since (t : time.Time) : Op time.Duration :=
  now ← time_Now; ret (time.Sub now t).

(** One round trip to the store: the call is logged, the clock moves
    on by the latency, the store becomes [d']. *)
Definition roundtrip (c : StoreCall) (d' : DB) (w : World) : World :=
  {| clock := clock w + db_latency (db w);
     db := d';
     queries := queries w ++ [c] |}.

Definition SelectContext_permissions (ctx : Context) (uid : UUID)
  : Op (list Permission * option error) :=
  fun s =>
    let w := world s in
    (db_permissions (db w) ctx uid,
     {| auth := auth s; world := roundtrip (SelectPermissions uid) (db w) w |}).

Definition GetContext_exists (ctx : Context) (uid : UUID) (roleName : string)
  : Op (bool * option error) :=
  fun s =>
    let w := world s in
    (db_role_exists (db w) ctx uid roleName,
     {| auth := auth s; world := roundtrip (GetRoleExists uid roleName) (db w) w |}).

Definition SelectContext_roles (ctx : Context) (uid : UUID)
  : Op (list string * option error) :=
  fun s =>
    let w := world s in
    (db_roles (db w) ctx uid,
     {| auth := auth s; world := roundtrip (SelectRoles uid) (db w) w |}).

Definition ExecContext_assign (ctx : Context) (uid : UUID) (roleName : string)
  : Op (option error) :=
  fun s =>
    let w := world s in
    let '(d', err) := db_assign (db w) ctx uid roleName in
    (err, {| auth := auth s; world := roundtrip (ExecAssign uid roleName) d' w |}).

Definition ExecContext_remove (ctx : Context) (uid : UUID) (roleName : string)
  : Op (option error) :=
  fun s =>
    let w := world s in
    let '(d', err) := db_remove (db w) ctx uid roleName in
    (err, {| auth := auth s; world := roundtrip (ExecRemove uid roleName) d' w |}).


(** ** Construction and configuration *)

(** [NewAuthorizer]; [cfgCacheTTL] is [config.Get().CacheTTL()]. *)
Definition NewAuthorizer (cfgCacheTTL : time.Duration) : Authorizer :=
  {| cache := ∅; cacheTTL := cfgCacheTTL; enableCaching := true |}.

Definition SetCacheTTL (ttl : time.Duration) : Op unit :=
  a ← get_auth;
  put_auth {| cache := cache a; cacheTTL := ttl; enableCaching := enableCaching a |}.

Definition DisableCache : Op unit :=
  a ← get_auth;
  put_auth {| cache := cache a; cacheTTL := cacheTTL a; enableCaching := false |}.

Definition EnableCache : Op unit :=
  a ← get_auth;
  put_auth {| cache := cache a; cacheTTL := cacheTTL a; enableCaching := true |}.

(** ** The cache *)

(** The loop [for _, p := range permissions { if p.Name ==
    permissionName { return true } }; return false] that closes both
    [HasPermission] and [checkCache]. *)
Fixpoint hasName (permissionName : string) (permissions : list Permission) : bool :=
  match permissions with
  | [] => false
  | p :: rest =>
      if bool_decide (Name p = permissionName) then true
      else hasName permissionName rest
  end.

(** [checkCache] returns [(hasPermission, found)]. *)
Definition checkCache (userID permissionName : string) : Op (bool * bool) :=
  a ← get_auth;
  match cache a !! userID with
  | None => ret (false, false)
  | Some userPerms =>
      age ← time_Since (LoadedAt userPerms);
      if bool_decide (cacheTTL a < age) then ret (false, false)
      else ret (hasName permissionName (Permissions userPerms), true)
  end.

Definition updateCache (userID : string) (permissions : list Permission) : Op unit :=
  now ← time_Now;
  a ← get_auth;
  put_auth {| cache := <[userID := {| Permissions := permissions; LoadedAt := now |}]> (cache a);
              cacheTTL := cacheTTL a;
              enableCaching := enableCaching a |}.

Definition invalidateCache (userID : string) : Op unit :=
  a ← get_auth;
  put_auth {| cache := delete userID (cache a);
              cacheTTL := cacheTTL a;
              enableCaching := enableCaching a |}.

(** [for k := range a.cache { delete(a.cache, k) }]: every entry of the
    map is visited once and deleted. *)
Definition InvalidateAllCache : Op unit :=
  a ← get_auth;
  put_auth {| cache := map_fold (fun k _ m => delete k m) (cache a) (cache a);
              cacheTTL := cacheTTL a;
              enableCaching := enableCaching a |}.

(** One pass of the sweep.  The loop ranges over the entries of the
    map and deletes the current one when it has expired, so every
    entry present at the start is visited once. *)
Definition cleanExpiredCache : Op unit :=
  now ← time_Now;
  a ← get_auth;
  put_auth {| cache :=
                map_fold
                  (fun userID userPerms m =>
                     if bool_decide (cacheTTL a < time.Sub now (LoadedAt userPerms))
                     then delete userID m else m)
                  (cache a) (cache a);
              cacheTTL := cacheTTL a;
              enableCaching := enableCaching a |}.

(** ** Decision API *)

(** Returns [(permissions, err)]; [nil] is the empty slice. *)
Definition loadUserPermissions (ctx : Context) (userID : UUID)
  : Op (list Permission * option error) :=
  '(permissions, err) ← SelectContext_permissions ctx userID;
  match err with
  | Some e =>
      if negb (errors_Is e sql_ErrNoRows) then ret ([], Some e)
      else ret (permissions, None)
  | None => ret (permissions, None)
  end.

Definition HasPermission (ctx : Context) (userID permissionName : string)
  : Op (bool * option error) :=
  match uuid_Parse userID with
  | inr err => ret (false, Some (fmt_Errorf_w "invalid user ID" err))
  | inl uid =>
      a ← get_auth;
      '(hasPermission, found) ←
        (if enableCaching a then checkCache userID permissionName
         else ret (false, false) : Op (bool * bool));
      if (found : bool) then ret (hasPermission, None)
      else
        '(permissions, err) ← loadUserPermissions ctx uid;
        match err with
        | Some e =>
            ret (false, Some (fmt_Errorf_w "failed to load user permissions" e))
        | None =>
            a' ← get_auth;
            (if enableCaching a' then updateCache userID permissions else ret tt);;
            ret (hasName permissionName permissions, None)
        end
  end.

Fixpoint HasAnyPermission (ctx : Context) (userID : string)
    (permissionNames : list string) : Op (bool * option error) :=
  match permissionNames with
  | [] => ret (false, None)
  | permissionName :: rest =>
      '(hasPermission, err) ← HasPermission ctx userID permissionName;
      match err with
      | Some e => ret (false, Some e)
      | None =>
          if (hasPermission : bool) then ret (true, None)
          else HasAnyPermission ctx userID rest
      end
  end.

Fixpoint HasAllPermissions (ctx : Context) (userID : string)
    (permissionNames : list string) : Op (bool * option error) :=
  match permissionNames with
  | [] => ret (true, None)
  | permissionName :: rest =>
      '(hasPermission, err) ← HasPermission ctx userID permissionName;
      match err with
      | Some e => ret (false, Some e)
      | None =>
          if negb hasPermission then ret (false, None)
          else HasAllPermissions ctx userID rest
      end
  end.

Definition HasRole (ctx : Context) (userID roleName : string)
  : Op (bool * option error) :=
  match uuid_Parse userID with
  | inr err => ret (false, Some (fmt_Errorf_w "invalid user ID" err))
  | inl uid =>
      '(exists_, err) ← GetContext_exists ctx uid roleName;
      match err with
      | Some e => ret (false, Some (fmt_Errorf_w "failed to check role" e))
      | None => ret (exists_, None)
      end
  end.

Definition GetUserRoles (ctx : Context) (userID : string)
  : Op (list string * option error) :=
  match uuid_Parse userID with
  | inr err => ret ([], Some (fmt_Errorf_w "invalid user ID" err))
  | inl uid =>
      '(roles, err) ← SelectContext_roles ctx uid;
      match err with
      | Some e => ret ([], Some (fmt_Errorf_w "failed to get user roles" e))
      | None => ret (roles, None)
      end
  end.

(** ** Mutation API *)

Definition AssignRole (ctx : Context) (userID roleName : string) : Op (option error) :=
  match uuid_Parse userID with
  | inr err => ret (Some (fmt_Errorf_w "invalid user ID" err))
  | inl uid =>
      err ← ExecContext_assign ctx uid roleName;
      match err with
      | Some e => ret (Some (fmt_Errorf_w "failed to assign role" e))
      | None => invalidateCache userID;; ret None
      end
  end.

Definition RemoveRole (ctx : Context) (userID roleName : string) : Op (option error) :=
  match uuid_Parse userID with
  | inr err => ret (Some (fmt_Errorf_w "invalid user ID" err))
  | inl uid =>
      err ← ExecContext_remove ctx uid roleName;
      match err with
      | Some e => ret (Some (fmt_Errorf_w "failed to remove role" e))
      | None => invalidateCache userID;; ret None
      end
  end.

(** ** Vocabulary of the properties *)

(** The age of an entry at instant [now]: what
    [time.Since(userPerms.LoadedAt)] in [checkCache] and
    [now.Sub(userPerms.LoadedAt)] in [cleanExpiredCache] compute. *)
Definition age (now : time.Time) (userPerms : UserPermissions) : time.Duration :=
  time.Sub now (LoadedAt userPerms).

(** What [HasPermission] answers from a list of permissions. *)
Definition decision (permissionName : string) (r : list Permission * option error)
  : bool * option error :=
  match r.2 with
  | Some e => (false, Some (fmt_Errorf_w "failed to load user permissions" e))
  | None => (hasName permissionName r.1, None)
  end.



(** [HasPermission] called for every name in order, none skipped:
    each answer with the state it leaves. *)
Fixpoint each (ctx : Context) (userID : string) (names : list string) (s : State)
  : list ((bool * option error) * State) :=
  match names with
  | [] => []
  | permissionName :: rest =>
      let r := HasPermission ctx userID permissionName s in
      r :: each ctx userID rest r.2
  end.

(** The state after the last of a series of calls. *)
Definition final {A} (calls : list (A * State)) (s : State) : State :=
  match last calls with
  | Some r => r.2
  | None => s
  end.

(** A call settles [HasAnyPermission] when it fails or answers
    [true], and [HasAllPermissions] when it fails or answers
    [false]. *)
Definition settles (stop : bool) (r : (bool * option error) * State) : bool :=
  match r.1 with
  | (_, Some _) => true
  | (b, None) => bool_decide (b = stop)
  end.

(** After a role mutation given the string [userID] that took [s] to
    [s']: the entry stored under that very string is deleted, every
    other entry and the rest of the Authorizer are as they were, and
    the next [HasPermission] given the same string, whatever the clock
    and the store have become, sends the permission query to the
    store. *)
Definition invalidated (userID : string) (uid : UUID) (s s' : State) : Prop :=
  cache (auth s') = delete userID (cache (auth s)) /\
  cacheTTL (auth s') = cacheTTL (auth s) /\
  enableCaching (auth s') = enableCaching (auth s) /\
  forall (ctx : Context) (permissionName : string) (w : World),
    queries (world (HasPermission ctx userID permissionName
                      {| auth := auth s'; world := w |}).2) =
    (queries w ++ [SelectPermissions uid])%list.

(** What a load returns from a store in state [d], as a function of
    the store alone. *)
Definition loaded (d : DB) (ctx : Context) (uid : UUID) : list Permission * option error :=
  let '(permissions, err) := db_permissions d ctx uid in
  match err with
  | Some e => if negb (errors_Is e sql_ErrNoRows) then ([], Some e) else (permissions, None)
  | None => (permissions, None)
  end.

(** Every entry of the cache holds what a load from the store in
    state [d] returns for the entry's user. *)
Definition coherent (ctx : Context) (d : DB) (a : Authorizer) : Prop :=
  forall (userID : string) (userPerms : UserPermissions),
    cache a !! userID = Some userPerms ->
    exists uid, uuid_Parse userID = inl uid /\
                loaded d ctx uid = (Permissions userPerms, None).

End Methods.

(** ** A concrete store

    An instance of the collaborators to run the methods on: identifiers
    in the canonical 36-character form (the only form of [uuid.Parse]
    taken up here), a store made of the [role_permissions] and
    [user_roles] relations, and a context that is either live or
    cancelled.  The rows come back in the order of the relations. *)

Module Fixture.

Definition is_hex (c : ascii) : bool :=
  let n := nat_of_ascii c in
  ((48 <=? n) && (n <=? 57) || (65 <=? n) && (n <=? 70) || (97 <=? n) && (n <=? 102))%nat.

Definition lower (c : ascii) : ascii :=
  let n := nat_of_ascii c in
  if ((65 <=? n) && (n <=? 70))%nat then ascii_of_nat (n + 32) else c.

Definition is_dash_position (i : nat) : bool :=
  ((i =? 8) || (i =? 13) || (i =? 18) || (i =? 23))%nat.

Fixpoint canonical (i : nat) (s : string) : option string :=
  match s with
  | EmptyString => if (i =? 36)%nat then Some EmptyString else None
  | String c rest =>
      if is_dash_position i then
        if bool_decide (c = "-"%char) then String c <$> canonical (S i) rest else None
      else if is_hex c then String (lower c) <$> canonical (S i) rest
      else None
  end.

Definition parse (s : string) : string + error :=
  match canonical 0 s with
  | Some u => inl u
  | None => inr (errors_New "invalid UUID format")
  end.

#[local] Instance Permission_eq_dec : EqDecision Permission.
Proof. solve_decision. Defined.

Record Store : Type := {
  role_permissions : list (string * Permission);
  user_roles : list (string * string);
  reachable : bool
}.

(** A call fails when the context is cancelled or the store is out of
    reach. *)
Definition failure (d : Store) (cancelled : bool) : option error :=
  if cancelled then Some context_Canceled
  else if reachable d then None
  else Some sql_ErrConnDone.

Definition roles_of (d : Store) (uid : string) : list string :=
  (filter (fun ur => ur.1 = uid) (user_roles d)).*2.

Definition permissions_of (d : Store) (uid : string) : list Permission :=
  remove_dups
    ((filter (fun rp => rp.1 ∈ roles_of d uid) (role_permissions d)).*2).

Definition select_permissions (d : Store) (cancelled : bool) (uid : string)
  : list Permission * option error :=
  match failure d cancelled with
  | Some e => ([], Some e)
  | None => (permissions_of d uid, None)
  end.

Definition role_exists (d : Store) (cancelled : bool) (uid roleName : string)
  : bool * option error :=
  match failure d cancelled with
  | Some e => (false, Some e)
  | None => (bool_decide (roleName ∈ roles_of d uid), None)
  end.

Definition select_roles (d : Store) (cancelled : bool) (uid : string)
  : list string * option error :=
  match failure d cancelled with
  | Some e => ([], Some e)
  | None => (roles_of d uid, None)
  end.

Definition assign (d : Store) (cancelled : bool) (uid roleName : string)
  : Store * option error :=
  match failure d cancelled with
  | Some e => (d, Some e)
  | None =>
      (if bool_decide ((uid, roleName) ∈ user_roles d) then d
       else {| role_permissions := role_permissions d;
               user_roles := user_roles d ++ [(uid, roleName)];
               reachable := reachable d |},
       None)
  end.

Definition remove (d : Store) (cancelled : bool) (uid roleName : string)
  : Store * option error :=
  match failure d cancelled with
  | Some e => (d, Some e)
  | None =>
      ({| role_permissions := role_permissions d;
          user_roles := filter (fun ur => ur ≠ (uid, roleName)) (user_roles d);
          reachable := reachable d |},
       None)
  end.

#[export] Instance env : Env := {|
  UUID := string;
  uuid_Parse := parse;
  Context := bool;
  DB := Store;
  db_permissions := select_permissions;
  db_role_exists := role_exists;
  db_roles := select_roles;
  db_assign := assign;
  db_remove := remove;
  db_latency := fun _ => 1000000
|}.

Definition perm (name resource action : string) : Permission :=
  {| Name := name; Resource := resource; Action := action |}.

(** The scenario of the specification: user [U] holds role [user],
    which grants [user.read] and [user.update]. *)
Definition U : string := "6ba7b810-9dad-11d1-80b4-00c04fd430c8".

Definition store : Store :=
  {| role_permissions :=
       [("user", perm "user.read" "user" "read");
        ("user", perm "user.update" "user" "update");
        ("admin", perm "user.delete" "user" "delete")];
     user_roles := [(U, "user")];
     reachable := true |}.

Definition background : bool := false.

Definition minute : time.Duration := 60 * 1000000000.

Definition start (a : Authorizer) (now : time.Time) (d : Store) : State :=
  {| auth := a; world := {| clock := now; db := d; queries := [] |} |}.

(** The cache after a first successful lookup for [U] at instant 0
    (the stamp is taken after the round trip), under a TTL of five
    minutes. *)
Definition loadedU : UserPermissions :=
  {| Permissions := permissions_of store U; LoadedAt := 1000000 |}.

Definition primed : Authorizer :=
  {| cache := {[ U := loadedU ]}; cacheTTL := 5 * minute; enableCaching := true |}.

(** The instant at which the entry of [primed] is exactly as old as
    the TTL, and the next nanosecond. *)
Definition at_TTL : time.Time := 1000000 + 5 * minute.
Definition past_TTL : time.Time := at_TTL + 1.

Definition cancelled : bool := true.

End Fixture.


(** ** Configuration

    The integer settings of [config.Config] that reach the Authorizer or
    are corrected by [config.Load], and the durations derived from
    them.  Go's [int] is taken at 64 bits. *)

Module config.

(** A 64-bit signed integer after an overflowing operation. *)
Definition wrap64 (z : Z) : Z := (z + 2 ^ 63) mod 2 ^ 64 - 2 ^ 63.

Definition Minute : time.Duration := 60 * 1000000000.

Record Config : Type := {
  BcryptCost : Z;
  CacheTTLMinutes : Z;
  CacheCleanupIntervalMinutes : Z
}.

(** What [Load] does to the integer settings once [env.Parse] has
    filled [cfg]: the bcrypt cost is raised to 10, then lowered to 31. *)
Definition Load (cfg : Config) : Config :=
  let cost := if bool_decide (BcryptCost cfg < 10) then 10 else BcryptCost cfg in
  let cost := if bool_decide (31 < cost) then 31 else cost in
  {| BcryptCost := cost;
     CacheTTLMinutes := CacheTTLMinutes cfg;
     CacheCleanupIntervalMinutes := CacheCleanupIntervalMinutes cfg |}.

(** [time.Duration(c.CacheTTLMinutes) * time.Minute]. *)
Definition CacheTTL (c : Config) : time.Duration :=
  wrap64 (CacheTTLMinutes c * Minute).

Definition CacheCleanupInterval (c : Config) : time.Duration :=
  wrap64 (CacheCleanupIntervalMinutes c * Minute).

End config.

(** Package [constants]. *)
Module constants.

Definition DefaultCacheTTL : time.Duration := 5 * config.Minute.
Definition DefaultCacheCleanupInterval : time.Duration := 10 * config.Minute.
Definition EnvCacheCleanupInterval : string := "CACHE_CLEANUP_INTERVAL_MINUTES".

End constants.

(** [getCacheCleanupInterval] of package [providers].  [Getenv] is
    [os.Getenv] and [Atoi] is [strconv.Atoi], whose value is only looked
    at when it returns no error. *)
Definition getCacheCleanupInterval
    (Getenv : string -> string) (Atoi : string -> Z + error) : time.Duration :=
  let intervalStr := Getenv constants.EnvCacheCleanupInterval in
  if bool_decide (intervalStr <> "") then
    match Atoi intervalStr with
    | inl minutes =>
        if bool_decide (0 < minutes) then config.wrap64 (minutes * config.Minute)
        else constants.DefaultCacheCleanupInterval
    | inr _ => constants.DefaultCacheCleanupInterval
    end
  else constants.DefaultCacheCleanupInterval.

(** ** More vocabulary *)

Section Invariants.

Context `{env : Env}.


(** Every key of the cache is a string [uuid.Parse] accepts. *)
Definition keys_parse (a : Authorizer) : Prop :=
  forall (userID : string) (userPerms : UserPermissions),
    cache a !! userID = Some userPerms ->
    exists uid, uuid_Parse userID = inl uid.

(** The state right after a round trip for the permission query. *)
Definition queried (uid : UUID) (s : State) : State :=
  {| auth := auth s;
     world := roundtrip (SelectPermissions uid) (db (world s)) (world s) |}.

(** The Authorizer after [updateCache] stored [permissions] for
    [userID] at instant [now]. *)
Definition stored (userID : string) (permissions : list Permission)
    (now : time.Time) (a : Authorizer) : Authorizer :=
  {| cache := <[userID := {| Permissions := permissions; LoadedAt := now |}]> (cache a);
     cacheTTL := cacheTTL a;
     enableCaching := enableCaching a |}.

End Invariants.

(** Another spelling of the identifier of [Fixture.U], and two
    environments for [getCacheCleanupInterval]. *)
Module Spelling.

Definition U_upper : string := "6BA7B810-9DAD-11D1-80B4-00C04FD430C8".

Definition env_unset (name : string) : string := "".
Definition env_three (name : string) : string := "3".

Definition atoi_digit (s : string) : Z + error :=
  if bool_decide (s = "3") then inl 3
  else inr (errors_New "strconv.Atoi: invalid syntax").

End Spelling.

(** Two series of calls for [Fixture.U]: the second call under a
    cancelled context while the entry of the first is still valid, and
    both calls under the live context, the second after the entry has
    expired. *)
Module Series.




End Series.

(** A store whose driver reports a user without permissions as
    [sql.ErrNoRows]; everything else is as in [Fixture]. *)
Module NoRows.

Definition select_permissions (d : Fixture.Store) (cancelled : bool) (uid : string)
  : list Permission * option error :=
  match Fixture.select_permissions d cancelled uid with
  | ([], None) => ([], Some sql_ErrNoRows)
  | r => r
  end.

Definition env : Env := {|
  UUID := string;
  uuid_Parse := Fixture.parse;
  Context := bool;
  DB := Fixture.Store;
  db_permissions := select_permissions;
  db_role_exists := Fixture.role_exists;
  db_roles := Fixture.select_roles;
  db_assign := Fixture.assign;
  db_remove := Fixture.remove;
  db_latency := fun _ => 1000000
|}.

Definition stranger : string := "00000000-0000-0000-0000-000000000001".

Definition fresh : @State env :=
  @Build_State env (NewAuthorizer (5 * Fixture.minute))
    (@Build_World env 0 Fixture.store []).

End NoRows.

(** * Properties *)

Section Properties.

Context `{env : Env}.

Ltac step :=
  unfold mbind, Op_bind, bind, ret, get_auth, put_auth,
    time_Since, time_Now in *; cbn in *.

(** ** Saturated subtraction *)

Lemma Sub_exact (t u : time.Time) :
  time.minDuration <= t - u <= time.maxDuration -> time.Sub t u = t - u.
Proof.
  intros [Hlo Hhi]. unfold time.Sub.
  rewrite bool_decide_eq_false_2 by lia.
  rewrite bool_decide_eq_false_2 by lia. reflexivity.
Qed.

Lemma Sub_exceeds (t u : time.Time) (ttl : time.Duration) :
  ttl < time.maxDuration -> u + ttl < t -> ttl < time.Sub t u.
Proof.
  intros Hmax Hlate. unfold time.Sub.
  case_bool_decide; [lia |].
  case_bool_decide; lia.
Qed.

(** ** The cache lookup *)

Lemma checkCache_eq (userID permissionName : string) (s : State) :
  checkCache userID permissionName s =
  (match cache (auth s) !! userID with
   | Some userPerms =>
       if bool_decide (cacheTTL (auth s) < age (clock (world s)) userPerms)
       then (false, false)
       else (hasName permissionName (Permissions userPerms), true)
   | None => (false, false)
   end, s).
Proof.
  unfold checkCache, age. step.
  destruct (cache (auth s) !! userID) as [userPerms|]; [|reflexivity].
  step. case_bool_decide; reflexivity.
Qed.

Lemma loadUserPermissions_eq (ctx : Context) (uid : UUID) (s : State) :
  exists r,
    loadUserPermissions ctx uid s =
    (r, {| auth := auth s;
           world := roundtrip (SelectPermissions uid) (db (world s)) (world s) |}).
Proof.
  unfold loadUserPermissions, SelectContext_permissions. step.
  destruct (db_permissions (db (world s)) ctx uid) as [permissions [e|]]; step.
  - destruct (errors_Is e sql_ErrNoRows); step; eauto.
  - eauto.
Qed.

Lemma loadUserPermissions_auth (ctx : Context) (uid : UUID) (s : State) :
  auth (loadUserPermissions ctx uid s).2 = auth s.
Proof. destruct (loadUserPermissions_eq ctx uid s) as [r ->]. reflexivity. Qed.

Lemma loadUserPermissions_world (ctx : Context) (uid : UUID) (s : State) :
  world (loadUserPermissions ctx uid s).2 =
  roundtrip (SelectPermissions uid) (db (world s)) (world s).
Proof. destruct (loadUserPermissions_eq ctx uid s) as [r ->]. reflexivity. Qed.

(** The load reads the store and nothing of the Authorizer. *)
Lemma loadUserPermissions_frame (ctx : Context) (uid : UUID) (s : State) (a : Authorizer) :
  (loadUserPermissions ctx uid {| auth := a; world := world s |}).1 =
  (loadUserPermissions ctx uid s).1.
Proof.
  unfold loadUserPermissions, SelectContext_permissions. step.
  destruct (db_permissions (db (world s)) ctx uid) as [permissions [e|]]; step.
  - destruct (errors_Is e sql_ErrNoRows); reflexivity.
  - reflexivity.
Qed.

(** ** The three ways through [HasPermission] *)

Lemma HasPermission_invalid (ctx : Context) (userID permissionName : string)
    (err : error) (s : State) :
  uuid_Parse userID = inr err ->
  HasPermission ctx userID permissionName s =
  ((false, Some (fmt_Errorf_w "invalid user ID" err)), s).
Proof. intros Hparse. unfold HasPermission. rewrite Hparse. reflexivity. Qed.

Lemma HasPermission_hit (ctx : Context) (userID permissionName : string)
    (uid : UUID) (userPerms : UserPermissions) (s : State) :
  uuid_Parse userID = inl uid ->
  enableCaching (auth s) = true ->
  cache (auth s) !! userID = Some userPerms ->
  age (clock (world s)) userPerms <= cacheTTL (auth s) ->
  HasPermission ctx userID permissionName s =
  ((hasName permissionName (Permissions userPerms), None), s).
Proof.
  intros Hparse Hon Hentry Hage. unfold HasPermission. rewrite Hparse. step.
  rewrite Hon, checkCache_eq, Hentry.
  rewrite bool_decide_eq_false_2 by lia. reflexivity.
Qed.

Lemma HasPermission_miss (ctx : Context) (userID permissionName : string)
    (uid : UUID) (s : State) :
  uuid_Parse userID = inl uid ->
  enableCaching (auth s) = false \/ (checkCache userID permissionName s).1.2 = false ->
  HasPermission ctx userID permissionName s =
  let load := loadUserPermissions ctx uid s in
  (decision permissionName load.1,
   match load.1.2 with
   | Some _ => load.2
   | None =>
       if enableCaching (auth s) then (updateCache userID load.1.1 load.2).2
       else load.2
   end).
Proof.
  intros Hparse Hmiss. unfold HasPermission. rewrite Hparse. step.
  assert ((if enableCaching (auth s) then checkCache userID permissionName
           else fun s0 => (false, false, s0)) s
          = ((((if enableCaching (auth s) then checkCache userID permissionName
           else fun s0 => (false, false, s0)) s).1.1, false), s)) as Hc.
  { destruct (enableCaching (auth s)) eqn:Hon.
    - destruct Hmiss as [Hoff | Hnone]; [discriminate |].
      rewrite checkCache_eq in *. cbn in *.
      destruct (cache (auth s) !! userID) as [userPerms|]; [|reflexivity].
      destruct (bool_decide _); [reflexivity | discriminate].
    - reflexivity. }
  rewrite Hc. clear Hc.
  pose proof (loadUserPermissions_auth ctx uid s) as Hauth.
  destruct (loadUserPermissions ctx uid s) as [[permissions [e|]] s1]; cbn in *.
  - reflexivity.
  - unfold decision. cbn. rewrite Hauth.
    destruct (enableCaching (auth s)); reflexivity.
Qed.

Lemma updateCache_eq (userID : string) (permissions : list Permission) (s : State) :
  updateCache userID permissions s =
  (tt, {| auth :=
            {| cache := <[userID := {| Permissions := permissions;
                                       LoadedAt := clock (world s) |}]> (cache (auth s));
               cacheTTL := cacheTTL (auth s);
               enableCaching := enableCaching (auth s) |};
          world := world s |}).
Proof. reflexivity. Qed.

Lemma HasPermission_miss_world (ctx : Context) (userID permissionName : string)
    (uid : UUID) (s : State) :
  uuid_Parse userID = inl uid ->
  enableCaching (auth s) = false \/ (checkCache userID permissionName s).1.2 = false ->
  world (HasPermission ctx userID permissionName s).2 =
  roundtrip (SelectPermissions uid) (db (world s)) (world s).
Proof.
  intros Hparse Hmiss. rewrite (HasPermission_miss _ _ _ uid) by assumption. cbn.
  pose proof (loadUserPermissions_world ctx uid s) as Hw.
  destruct (loadUserPermissions ctx uid s) as [[permissions [e|]] s1]; cbn in *.
  - exact Hw.
  - destruct (enableCaching (auth s)); [rewrite updateCache_eq|]; exact Hw.
Qed.

(** ** Expiry at lookup *)

(** C1, amended.  With an entry cached for the user: [checkCache]
    answers from the entry only if the entry's age is at most the TTL,
    and then with the membership of the name in the entry's set; it
    does answer from it whenever the age is at most the TTL, the age
    equal to the TTL included; once the age exceeds the TTL the
    lookup is a miss and [HasPermission] goes to the store and
    decides from what the load returns; and, the TTL being below the
    largest [Duration], the age exceeds the TTL at every instant
    later than [LoadedAt + TTL]. *)
Theorem checkCache_hit_iff_age_within_TTL
    (userID permissionName : string) (userPerms : UserPermissions) (s : State) :
  cache (auth s) !! userID = Some userPerms ->
  (forall hasPermission s',
      checkCache userID permissionName s = ((hasPermission, true), s') ->
      age (clock (world s)) userPerms <= cacheTTL (auth s) /\
      hasPermission = hasName permissionName (Permissions userPerms) /\
      s' = s) /\
  (age (clock (world s)) userPerms <= cacheTTL (auth s) ->
   checkCache userID permissionName s =
   ((hasName permissionName (Permissions userPerms), true), s)) /\
  (cacheTTL (auth s) < age (clock (world s)) userPerms ->
   checkCache userID permissionName s = ((false, false), s) /\
   forall (ctx : Context) (uid : UUID),
     uuid_Parse userID = inl uid ->
     (HasPermission ctx userID permissionName s).1 =
       decision permissionName (loadUserPermissions ctx uid s).1 /\
     queries (world (HasPermission ctx userID permissionName s).2) =
       (queries (world s) ++ [SelectPermissions uid])%list) /\
  (cacheTTL (auth s) < time.maxDuration ->
   LoadedAt userPerms + cacheTTL (auth s) < clock (world s) ->
   cacheTTL (auth s) < age (clock (world s)) userPerms).
Proof.
  intros Hentry. repeat split.
  - revert H. rewrite checkCache_eq, Hentry.
    case_bool_decide; [discriminate | lia].
  - revert H. rewrite checkCache_eq, Hentry.
    case_bool_decide; [discriminate | congruence].
  - revert H. rewrite checkCache_eq, Hentry.
    case_bool_decide; [discriminate | congruence].
  - intros Hage. rewrite checkCache_eq, Hentry.
    rewrite bool_decide_eq_false_2 by lia. reflexivity.
  - rewrite checkCache_eq, Hentry.
    rewrite bool_decide_eq_true_2 by assumption. reflexivity.
  - rewrite (HasPermission_miss _ _ _ uid); [reflexivity | assumption |].
    right. rewrite checkCache_eq, Hentry.
    rewrite bool_decide_eq_true_2 by assumption. reflexivity.
  - rewrite (HasPermission_miss_world _ _ _ uid); [reflexivity | assumption |].
    right. rewrite checkCache_eq, Hentry.
    rewrite bool_decide_eq_true_2 by assumption. reflexivity.
  - intros Hmax Hlate. unfold age. apply Sub_exceeds; assumption.
Qed.

(** ** Malformed identifiers *)

(** C6.  For a [userID] that [uuid.Parse] rejects, [HasPermission]
    returns [false] with the parse error wrapped as "invalid user ID"
    and leaves the whole state as it was: no store call is logged, the
    cache is not modified, and the answer does not depend on the
    cache. *)
Theorem HasPermission_invalid_userID_no_effect
    (ctx : Context) (userID permissionName : string) (err : error) (s : State) :
  uuid_Parse userID = inr err ->
  HasPermission ctx userID permissionName s =
    ((false, Some (fmt_Errorf_w "invalid user ID" err)), s) /\
  forall a : Authorizer,
    (HasPermission ctx userID permissionName {| auth := a; world := world s |}).1 =
    (HasPermission ctx userID permissionName s).1.
Proof.
  intros Hparse. split.
  - apply HasPermission_invalid, Hparse.
  - intros a. rewrite !(HasPermission_invalid _ _ _ err) by assumption. reflexivity.
Qed.

(** ** Empty lists of names *)

(** C10.  On the empty list, for every [userID], parseable or not,
    [HasAnyPermission] returns [(false, nil)] and [HasAllPermissions]
    returns [(true, nil)], and the state is untouched: nothing is
    parsed, no store call is logged, the cache is as before. *)
Theorem HasAny_HasAll_empty (ctx : Context) (userID : string) (s : State) :
  HasAnyPermission ctx userID [] s = ((false, None), s) /\
  HasAllPermissions ctx userID [] s = ((true, None), s).
Proof. split; reflexivity. Qed.

(** ** Failed loads *)


(** ** Role mutations *)

Lemma invalidateCache_eq (userID : string) (s : State) :
  invalidateCache userID s =
  (tt, {| auth := {| cache := delete userID (cache (auth s));
                     cacheTTL := cacheTTL (auth s);
                     enableCaching := enableCaching (auth s) |};
          world := world s |}).
Proof. reflexivity. Qed.

Lemma invalidated_after_delete (userID : string) (uid : UUID) (s : State) (w : World) :
  uuid_Parse userID = inl uid ->
  invalidated userID uid s ((invalidateCache userID {| auth := auth s; world := w |}).2).
Proof.
  intros Hparse. unfold invalidated. rewrite invalidateCache_eq. cbn.
  repeat split.
  intros ctx permissionName w'.
  rewrite (HasPermission_miss_world _ _ _ uid); [reflexivity | assumption |].
  right. rewrite checkCache_eq. cbn. rewrite lookup_delete_eq. reflexivity.
Qed.

Lemma AssignRole_eq (ctx : Context) (userID roleName : string) (s : State) :
  AssignRole ctx userID roleName s =
  match uuid_Parse userID with
  | inr perr => (Some (fmt_Errorf_w "invalid user ID" perr), s)
  | inl uid =>
      let w := roundtrip (ExecAssign uid roleName)
                 (db_assign (db (world s)) ctx uid roleName).1 (world s) in
      match (db_assign (db (world s)) ctx uid roleName).2 with
      | Some e =>
          (Some (fmt_Errorf_w "failed to assign role" e), {| auth := auth s; world := w |})
      | None => (None, (invalidateCache userID {| auth := auth s; world := w |}).2)
      end
  end.
Proof.
  unfold AssignRole, ExecContext_assign.
  destruct (uuid_Parse userID) as [uid | perr]; [|reflexivity]. step.
  destruct (db_assign (db (world s)) ctx uid roleName) as [d [e|]]; reflexivity.
Qed.

Lemma RemoveRole_eq (ctx : Context) (userID roleName : string) (s : State) :
  RemoveRole ctx userID roleName s =
  match uuid_Parse userID with
  | inr perr => (Some (fmt_Errorf_w "invalid user ID" perr), s)
  | inl uid =>
      let w := roundtrip (ExecRemove uid roleName)
                 (db_remove (db (world s)) ctx uid roleName).1 (world s) in
      match (db_remove (db (world s)) ctx uid roleName).2 with
      | Some e =>
          (Some (fmt_Errorf_w "failed to remove role" e), {| auth := auth s; world := w |})
      | None => (None, (invalidateCache userID {| auth := auth s; world := w |}).2)
      end
  end.
Proof.
  unfold RemoveRole, ExecContext_remove.
  destruct (uuid_Parse userID) as [uid | perr]; [|reflexivity]. step.
  destruct (db_remove (db (world s)) ctx uid roleName) as [d [e|]]; reflexivity.
Qed.

(** C4, amended.  [AssignRole] and [RemoveRole] alike, given the
    string [userID]: when the identifier parses and the store accepts
    the write, the call returns [nil]; if the call returns [nil], the
    identifier parsed, the statement went to the store, the entry
    stored under that very string is deleted, every other entry being
    kept, and the next [HasPermission] given the same string queries
    the store, whatever entry was cached before; when the store rejects
    the write the call returns its error wrapped; and if the call
    returns an error, the Authorizer and its cache are as they were. *)
Theorem role_mutation_invalidates_cache
    (ctx : Context) (userID roleName : string) (s : State) :
  (forall s', AssignRole ctx userID roleName s = (None, s') ->
     exists uid, uuid_Parse userID = inl uid /\
       queries (world s') = (queries (world s) ++ [ExecAssign uid roleName])%list /\
       invalidated userID uid s s') /\
  (forall s', RemoveRole ctx userID roleName s = (None, s') ->
     exists uid, uuid_Parse userID = inl uid /\
       queries (world s') = (queries (world s) ++ [ExecRemove uid roleName])%list /\
       invalidated userID uid s s') /\
  (forall e s', AssignRole ctx userID roleName s = (Some e, s') -> auth s' = auth s) /\
  (forall e s', RemoveRole ctx userID roleName s = (Some e, s') -> auth s' = auth s) /\
  (forall uid, uuid_Parse userID = inl uid ->
     match (db_assign (db (world s)) ctx uid roleName).2 with
     | None => (AssignRole ctx userID roleName s).1 = None
     | Some e =>
         (AssignRole ctx userID roleName s).1 =
         Some (fmt_Errorf_w "failed to assign role" e)
     end /\
     match (db_remove (db (world s)) ctx uid roleName).2 with
     | None => (RemoveRole ctx userID roleName s).1 = None
     | Some e =>
         (RemoveRole ctx userID roleName s).1 =
         Some (fmt_Errorf_w "failed to remove role" e)
     end /\
     db (world (AssignRole ctx userID roleName s).2) =
       (db_assign (db (world s)) ctx uid roleName).1 /\
     db (world (RemoveRole ctx userID roleName s).2) =
       (db_remove (db (world s)) ctx uid roleName).1).
Proof.
  split; [|split; [|split; [|split]]].
  - intros s'. rewrite AssignRole_eq.
    destruct (uuid_Parse userID) as [uid | perr] eqn:Hparse; [|discriminate].
    cbn zeta. destruct (db_assign (db (world s)) ctx uid roleName) as [d [e|]];
      cbn; [discriminate |].
    intros [= <-]. exists uid. split; [reflexivity |]. split; [reflexivity |].
    apply invalidated_after_delete, Hparse.
  - intros s'. rewrite RemoveRole_eq.
    destruct (uuid_Parse userID) as [uid | perr] eqn:Hparse; [|discriminate].
    cbn zeta. destruct (db_remove (db (world s)) ctx uid roleName) as [d [e|]];
      cbn; [discriminate |].
    intros [= <-]. exists uid. split; [reflexivity |]. split; [reflexivity |].
    apply invalidated_after_delete, Hparse.
  - intros e s'. rewrite AssignRole_eq.
    destruct (uuid_Parse userID) as [uid | perr]; [|intros [= _ <-]; reflexivity].
    cbn zeta. destruct (db_assign (db (world s)) ctx uid roleName) as [d [e'|]];
      cbn; [intros [= _ <-]; reflexivity | discriminate].
  - intros e s'. rewrite RemoveRole_eq.
    destruct (uuid_Parse userID) as [uid | perr]; [|intros [= _ <-]; reflexivity].
    cbn zeta. destruct (db_remove (db (world s)) ctx uid roleName) as [d [e'|]];
      cbn; [intros [= _ <-]; reflexivity | discriminate].
  - intros uid Hparse. rewrite AssignRole_eq, RemoveRole_eq, Hparse. cbn zeta.
    destruct (db_assign (db (world s)) ctx uid roleName) as [d1 [e1|]];
    destruct (db_remove (db (world s)) ctx uid roleName) as [d2 [e2|]];
      cbn; repeat split.
Qed.

(** ** Roles *)

(** C7.  For a [userID] that parses, [HasRole] and [GetUserRoles] each
    send their query to the store, return what the store returned (an
    error wrapped), give the same answer whatever the Authorizer holds,
    a valid cache entry for the user included, and leave the
    Authorizer as it was. *)
Theorem role_queries_bypass_cache
    (ctx : Context) (userID roleName : string) (uid : UUID) (s : State) :
  uuid_Parse userID = inl uid ->
  (auth (HasRole ctx userID roleName s).2 = auth s /\
   queries (world (HasRole ctx userID roleName s).2) =
     (queries (world s) ++ [GetRoleExists uid roleName])%list /\
   (HasRole ctx userID roleName s).1 =
     match db_role_exists (db (world s)) ctx uid roleName with
     | (_, Some e) => (false, Some (fmt_Errorf_w "failed to check role" e))
     | (b, None) => (b, None)
     end /\
   forall a : Authorizer,
     (HasRole ctx userID roleName {| auth := a; world := world s |}).1 =
     (HasRole ctx userID roleName s).1) /\
  (auth (GetUserRoles ctx userID s).2 = auth s /\
   queries (world (GetUserRoles ctx userID s).2) =
     (queries (world s) ++ [SelectRoles uid])%list /\
   (GetUserRoles ctx userID s).1 =
     match db_roles (db (world s)) ctx uid with
     | (_, Some e) => ([], Some (fmt_Errorf_w "failed to get user roles" e))
     | (roles, None) => (roles, None)
     end /\
   forall a : Authorizer,
     (GetUserRoles ctx userID {| auth := a; world := world s |}).1 =
     (GetUserRoles ctx userID s).1).
Proof.
  intros Hparse.
  unfold HasRole, GetUserRoles, GetContext_exists, SelectContext_roles.
  rewrite Hparse. step. split.
  - destruct (db_role_exists (db (world s)) ctx uid roleName) as [b [e|]];
      repeat split.
  - destruct (db_roles (db (world s)) ctx uid) as [roles [e|]];
      repeat split.
Qed.

(** ** The sweep *)

(** Deleting along a fold over [m], starting from [c]: the keys of
    [m] whose entry satisfies [expired] are gone, every other key
    reads as in [c]. *)
Lemma sweep_lookup (expired : UserPermissions -> bool)
    (c m : gmap string UserPermissions) (k : string) :
  map_fold (fun userID userPerms acc =>
              if expired userPerms then delete userID acc else acc) c m !! k =
  match m !! k with
  | Some userPerms => if expired userPerms then None else c !! k
  | None => c !! k
  end.
Proof.
  revert k.
  apply (map_fold_weak_ind
           (fun acc visited => forall k,
              acc !! k = match visited !! k with
                         | Some userPerms => if expired userPerms then None else c !! k
                         | None => c !! k
                         end)).
  - intros k. rewrite lookup_empty. reflexivity.
  - intros i x visited acc Hfresh IH k.
    destruct (decide (i = k)) as [-> | Hne].
    + rewrite lookup_insert_eq.
      destruct (expired x).
      * apply lookup_delete_eq.
      * rewrite IH, Hfresh. reflexivity.
    + rewrite lookup_insert_ne by assumption.
      destruct (expired x).
      * rewrite lookup_delete_ne by assumption. apply IH.
      * apply IH.
Qed.

Lemma cleanExpiredCache_eq (s : State) :
  cleanExpiredCache s =
  (tt, {| auth :=
            {| cache :=
                 map_fold
                   (fun userID userPerms acc =>
                      if bool_decide (cacheTTL (auth s) < age (clock (world s)) userPerms)
                      then delete userID acc else acc)
                   (cache (auth s)) (cache (auth s));
               cacheTTL := cacheTTL (auth s);
               enableCaching := enableCaching (auth s) |};
          world := world s |}).
Proof. reflexivity. Qed.

Lemma cleanExpiredCache_lookup (s : State) (userID : string) :
  cache (auth (cleanExpiredCache s).2) !! userID =
  match cache (auth s) !! userID with
  | Some userPerms =>
      if bool_decide (cacheTTL (auth s) < age (clock (world s)) userPerms)
      then None else Some userPerms
  | None => None
  end.
Proof.
  rewrite cleanExpiredCache_eq. cbn.
  rewrite (sweep_lookup
             (fun userPerms =>
                bool_decide (cacheTTL (auth s) < age (clock (world s)) userPerms))).
  destruct (cache (auth s) !! userID) as [userPerms|] eqn:Hentry; reflexivity.
Qed.

(** C8.  One pass of [cleanExpiredCache], at any clock value and on
    any cache: an entry is deleted exactly when its age exceeds the
    TTL; an entry whose age does not exceed the TTL is still there,
    unchanged; no entry appears; the TTL, the caching flag and the
    world are untouched and no store call is made. *)
Theorem cleanExpiredCache_deletes_exactly_expired (s : State) (userID : string) :
  cache (auth (cleanExpiredCache s).2) !! userID =
    match cache (auth s) !! userID with
    | Some userPerms =>
        if bool_decide (cacheTTL (auth s) < age (clock (world s)) userPerms)
        then None else Some userPerms
    | None => None
    end /\
  cacheTTL (auth (cleanExpiredCache s).2) = cacheTTL (auth s) /\
  enableCaching (auth (cleanExpiredCache s).2) = enableCaching (auth s) /\
  world (cleanExpiredCache s).2 = world s.
Proof.
  split; [apply cleanExpiredCache_lookup |].
  rewrite cleanExpiredCache_eq. cbn. repeat split.
Qed.

(** ** Changing the TTL *)

(** C9.  [SetCacheTTL newTTL] changes the TTL field and nothing
    else: the cache, with every entry and its [LoadedAt], the caching
    flag and the world are as before; and the validity checks made
    afterwards, at lookup and in the sweep, compare the age of the
    entries with [newTTL], whatever the TTL was before. *)
Theorem SetCacheTTL_only_changes_TTL (newTTL : time.Duration) (s : State) :
  let s' := (SetCacheTTL newTTL s).2 in
  cacheTTL (auth s') = newTTL /\
  cache (auth s') = cache (auth s) /\
  enableCaching (auth s') = enableCaching (auth s) /\
  world s' = world s /\
  (forall userID permissionName : string,
      checkCache userID permissionName s' =
      (match cache (auth s) !! userID with
       | Some userPerms =>
           if bool_decide (newTTL < age (clock (world s)) userPerms)
           then (false, false)
           else (hasName permissionName (Permissions userPerms), true)
       | None => (false, false)
       end, s')) /\
  (forall userID : string,
      cache (auth (cleanExpiredCache s').2) !! userID =
      match cache (auth s) !! userID with
      | Some userPerms =>
          if bool_decide (newTTL < age (clock (world s)) userPerms)
          then None else Some userPerms
      | None => None
      end).
Proof.
  cbn. repeat split.
  - intros userID permissionName. rewrite checkCache_eq. reflexivity.
  - intros userID. rewrite cleanExpiredCache_lookup. reflexivity.
Qed.

(** ** Any and all *)

Lemma final_cons {A} (r : A * State) (calls : list (A * State)) (s : State) :
  final (r :: calls) s = final calls r.2.
Proof.
  unfold final. rewrite last_cons. destruct (last calls); reflexivity.
Qed.

(** C5.  [HasAnyPermission] is decided by the first call, in the
    order of the names, that fails or answers [true]: it returns that
    call's error, or [(true, nil)], and stops in the state that call
    left, so that no later name is looked up; with no such call it
    returns [(false, nil)] after the last one.  [HasAllPermissions] is
    decided likewise by the first call that fails or answers [false]:
    it returns the error, or [(false, nil)], and [(true, nil)] when
    every name matched. *)
Theorem HasAny_HasAll_first_settling_call
    (ctx : Context) (userID : string) (names : list string) (s : State) :
  HasAnyPermission ctx userID names s =
    match List.find (settles true) (each ctx userID names s) with
    | Some ((_, Some e), s') => ((false, Some e), s')
    | Some ((_, None), s') => ((true, None), s')
    | None => ((false, None), final (each ctx userID names s) s)
    end /\
  HasAllPermissions ctx userID names s =
    match List.find (settles false) (each ctx userID names s) with
    | Some ((_, Some e), s') => ((false, Some e), s')
    | Some ((_, None), s') => ((false, None), s')
    | None => ((true, None), final (each ctx userID names s) s)
    end.
Proof.
  revert s. induction names as [|permissionName rest IH]; intros s.
  - split; reflexivity.
  - cbn [HasAnyPermission HasAllPermissions each List.find].
    rewrite final_cons. unfold settles at 1 3. step.
    destruct (IH (HasPermission ctx userID permissionName s).2) as [IHany IHall].
    destruct (HasPermission ctx userID permissionName s) as [[b [e|]] s1]; cbn in *.
    + split; reflexivity.
    + destruct b; cbn; split; try reflexivity; assumption.
Qed.

(** ** Transparency of the cache *)

Lemma loadUserPermissions_loaded (ctx : Context) (uid : UUID) (s : State) :
  (loadUserPermissions ctx uid s).1 = loaded (db (world s)) ctx uid.
Proof.
  unfold loadUserPermissions, SelectContext_permissions, loaded. step.
  destruct (db_permissions (db (world s)) ctx uid) as [permissions [e|]]; step.
  - destruct (errors_Is e sql_ErrNoRows); reflexivity.
  - reflexivity.
Qed.

(** One call on a coherent cache: the answer is the one a load from
    the store gives, the store is not changed, the caching flag is
    kept and the cache stays coherent. *)
Lemma HasPermission_coherent (ctx : Context) (userID permissionName : string) (s : State) :
  coherent ctx (db (world s)) (auth s) ->
  (HasPermission ctx userID permissionName s).1 =
    match uuid_Parse userID with
    | inr err => (false, Some (fmt_Errorf_w "invalid user ID" err))
    | inl uid => decision permissionName (loaded (db (world s)) ctx uid)
    end /\
  db (world (HasPermission ctx userID permissionName s).2) = db (world s) /\
  coherent ctx (db (world s)) (auth (HasPermission ctx userID permissionName s).2).
Proof.
  intros Hcoh.
  destruct (uuid_Parse userID) as [uid | perr] eqn:Hparse.
  2: { rewrite (HasPermission_invalid _ _ _ perr) by assumption. auto. }
  destruct (enableCaching (auth s)) eqn:Hon.
  - destruct ((checkCache userID permissionName s).1.2) eqn:Hfound.
    + rewrite checkCache_eq in Hfound. cbn in Hfound.
      destruct (cache (auth s) !! userID) as [userPerms|] eqn:Hentry; [|discriminate].
      case_bool_decide; [discriminate |].
      rewrite (HasPermission_hit _ _ _ uid userPerms); [| assumption.. | lia]. cbn.
      destruct (Hcoh _ _ Hentry) as (uid' & Hparse' & Hload).
      assert (uid' = uid) as -> by congruence.
      rewrite Hload. auto.
    + rewrite (HasPermission_miss _ _ _ uid) by auto. cbn.
      pose proof (loadUserPermissions_loaded ctx uid s) as Hload.
      pose proof (loadUserPermissions_auth ctx uid s) as Hauth.
      pose proof (loadUserPermissions_world ctx uid s) as Hworld.
      destruct (loadUserPermissions ctx uid s) as [[permissions err] s1]; cbn in *.
      rewrite <- Hload. split; [reflexivity |].
      destruct err as [e|]; cbn.
      * rewrite Hworld, Hauth. auto.
      * rewrite Hon, updateCache_eq. cbn. rewrite Hworld, Hauth. split; [reflexivity |].
        intros k userPerms. cbn.
        destruct (decide (userID = k)) as [<- | Hne].
        -- rewrite lookup_insert_eq. intros [= <-]. cbn. eauto.
        -- rewrite lookup_insert_ne by assumption. apply Hcoh.
  - rewrite (HasPermission_miss _ _ _ uid) by auto. cbn.
    pose proof (loadUserPermissions_loaded ctx uid s) as Hload.
    pose proof (loadUserPermissions_auth ctx uid s) as Hauth.
    pose proof (loadUserPermissions_world ctx uid s) as Hworld.
    destruct (loadUserPermissions ctx uid s) as [[permissions err] s1]; cbn in *.
    rewrite <- Hload. split; [reflexivity |].
    rewrite Hon. destruct err as [e|]; cbn; rewrite Hworld, Hauth; auto.
Qed.



Lemma coherent_empty (ctx : Context) (d : DB) (a : Authorizer) :
  cache a = ∅ -> coherent ctx d a.
Proof.
  intros Hempty userID userPerms Hentry.
  rewrite Hempty, lookup_empty in Hentry. discriminate.
Qed.


End Properties.

(** * Further properties of the package *)

Section MoreProperties.

Context `{env : Env}.

(** ** The shape of one [HasPermission] call *)

Lemma loadUserPermissions_queried (ctx : Context) (uid : UUID) (s : State) :
  loadUserPermissions ctx uid s = (loaded (db (world s)) ctx uid, queried uid s).
Proof.
  rewrite <- loadUserPermissions_loaded.
  destruct (loadUserPermissions_eq ctx uid s) as [r ->]. reflexivity.
Qed.

Lemma HasPermission_found (ctx : Context) (userID permissionName : string)
    (uid : UUID) (b : bool) (s : State) :
  uuid_Parse userID = inl uid ->
  enableCaching (auth s) = true ->
  (checkCache userID permissionName s).1 = (b, true) ->
  HasPermission ctx userID permissionName s = ((b, None), s).
Proof.
  intros Hparse Hon Hcheck. rewrite checkCache_eq in Hcheck. cbn in Hcheck.
  destruct (cache (auth s) !! userID) as [userPerms|] eqn:Hentry; [|discriminate].
  case_bool_decide; [discriminate |]. injection Hcheck as <-.
  apply (HasPermission_hit _ _ _ uid); [assumption.. | lia].
Qed.

Lemma HasPermission_not_found (ctx : Context) (userID permissionName : string)
    (uid : UUID) (s : State) :
  uuid_Parse userID = inl uid ->
  enableCaching (auth s) = false \/ (checkCache userID permissionName s).1.2 = false ->
  HasPermission ctx userID permissionName s =
  (decision permissionName (loaded (db (world s)) ctx uid),
   match (loaded (db (world s)) ctx uid).2 with
   | Some _ => queried uid s
   | None =>
       if enableCaching (auth s)
       then {| auth := stored userID (loaded (db (world s)) ctx uid).1
                         (clock (world s) + db_latency (db (world s))) (auth s);
               world := world (queried uid s) |}
       else queried uid s
   end).
Proof.
  intros Hparse Hmiss. rewrite (HasPermission_miss _ _ _ uid) by assumption.
  rewrite loadUserPermissions_queried. cbn.
  destruct (loaded (db (world s)) ctx uid) as [permissions [e|]]; cbn; [reflexivity |].
  destruct (enableCaching (auth s)); reflexivity.
Qed.

(** A call is a rejection, a hit or a miss. *)
Lemma HasPermission_cases (ctx : Context) (userID permissionName : string) (s : State) :
  (exists err, uuid_Parse userID = inr err) \/
  (exists uid b, uuid_Parse userID = inl uid /\
     enableCaching (auth s) = true /\
     (checkCache userID permissionName s).1 = (b, true)) \/
  (exists uid, uuid_Parse userID = inl uid /\
     (enableCaching (auth s) = false \/ (checkCache userID permissionName s).1.2 = false)).
Proof.
  destruct (uuid_Parse userID) as [uid | err]; [|eauto].
  right. destruct (enableCaching (auth s)) eqn:Hon; [|eauto].
  destruct (checkCache userID permissionName s) as [[b found] s'] eqn:Hcheck.
  destruct found; [left | right]; eauto.
Qed.

(** ** What a call leaves alone *)

Lemma HasPermission_other_keys (ctx : Context) (userID permissionName other : string)
    (s : State) :
  other <> userID ->
  cache (auth (HasPermission ctx userID permissionName s).2) !! other =
  cache (auth s) !! other.
Proof.
  intros Hother.
  destruct (HasPermission_cases ctx userID permissionName s)
    as [[err Hparse] | [(uid & b & Hparse & Hon & Hcheck) | (uid & Hparse & Hmiss)]].
  - rewrite (HasPermission_invalid _ _ _ err) by assumption. reflexivity.
  - rewrite (HasPermission_found _ _ _ uid b) by assumption. reflexivity.
  - rewrite (HasPermission_not_found _ _ _ uid) by assumption. cbn.
    destruct (loaded (db (world s)) ctx uid) as [permissions [e|]]; cbn; [reflexivity |].
    destruct (enableCaching (auth s)); cbn; [|reflexivity].
    apply lookup_insert_ne. congruence.
Qed.

Lemma HasPermission_world (ctx : Context) (userID permissionName : string) (s : State) :
  world (HasPermission ctx userID permissionName s).2 = world s \/
  exists uid, uuid_Parse userID = inl uid /\
              world (HasPermission ctx userID permissionName s).2 = world (queried uid s).
Proof.
  destruct (HasPermission_cases ctx userID permissionName s)
    as [[err Hparse] | [(uid & b & Hparse & Hon & Hcheck) | (uid & Hparse & Hmiss)]].
  - rewrite (HasPermission_invalid _ _ _ err) by assumption. auto.
  - rewrite (HasPermission_found _ _ _ uid b) by assumption. auto.
  - right. exists uid. split; [assumption |].
    apply HasPermission_miss_world; assumption.
Qed.

(** X1.  A [HasPermission] call never changes the store, the TTL or the
    caching flag; the only cache entry it can change is the one of the
    [userID] it was given; and it sends the store either nothing or the
    one permission query for the parsed identifier. *)
Theorem HasPermission_frame (ctx : Context) (userID permissionName : string) (s : State) :
  db (world (HasPermission ctx userID permissionName s).2) = db (world s) /\
  cacheTTL (auth (HasPermission ctx userID permissionName s).2) = cacheTTL (auth s) /\
  enableCaching (auth (HasPermission ctx userID permissionName s).2) =
    enableCaching (auth s) /\
  (forall other : string,
      other <> userID ->
      cache (auth (HasPermission ctx userID permissionName s).2) !! other =
      cache (auth s) !! other) /\
  (queries (world (HasPermission ctx userID permissionName s).2) = queries (world s) \/
   exists uid,
     uuid_Parse userID = inl uid /\
     queries (world (HasPermission ctx userID permissionName s).2) =
       (queries (world s) ++ [SelectPermissions uid])%list).
Proof.
  destruct (HasPermission_cases ctx userID permissionName s)
    as [[err Hparse] | [(uid & b & Hparse & Hon & Hcheck) | (uid & Hparse & Hmiss)]].
  - rewrite (HasPermission_invalid _ _ _ err) by assumption. cbn. repeat split; auto.
  - rewrite (HasPermission_found _ _ _ uid b) by assumption. cbn. repeat split; auto.
  - rewrite (HasPermission_not_found _ _ _ uid) by assumption. cbn.
    destruct (loaded (db (world s)) ctx uid) as [permissions [e|]]; cbn.
    + repeat split; eauto.
    + destruct (enableCaching (auth s)) eqn:Hon; cbn; repeat split; eauto.
      intros other Hother. apply lookup_insert_ne. congruence.
Qed.

(** ** Caching switched off *)

(** X2.  With caching disabled, a [HasPermission] call for an
    identifier that parses always sends the permission query to the
    store, answers from what the store returns, and leaves the
    Authorizer, the entries already cached included, exactly as it
    was. *)
Theorem HasPermission_disabled (ctx : Context) (userID permissionName : string)
    (uid : UUID) (s : State) :
  uuid_Parse userID = inl uid ->
  enableCaching (auth s) = false ->
  HasPermission ctx userID permissionName s =
    (decision permissionName (loaded (db (world s)) ctx uid), queried uid s).
Proof.
  intros Hparse Hoff. rewrite (HasPermission_not_found _ _ _ uid) by auto.
  rewrite Hoff. destruct (loaded (db (world s)) ctx uid) as [permissions [e|]]; reflexivity.
Qed.

(** ** A fill, then a hit *)

(** X3.  After a miss with caching enabled and a successful load, the
    user's entry holds exactly the loaded permissions, stamped with the
    clock read after the round trip, every other entry being as before;
    and as long as the age of that entry is at most the TTL, any later
    [HasPermission] for the same [userID] is answered from it: the
    answer is the membership of the name in the loaded set, whatever
    the store and the context have become, no store call is made and
    the state does not change. *)
Theorem HasPermission_fill_then_hit
    (ctx : Context) (userID permissionName : string) (uid : UUID)
    (permissions : list Permission) (s : State) :
  uuid_Parse userID = inl uid ->
  enableCaching (auth s) = true ->
  (checkCache userID permissionName s).1.2 = false ->
  loaded (db (world s)) ctx uid = (permissions, None) ->
  let loadedAt := clock (world s) + db_latency (db (world s)) in
  let s1 := (HasPermission ctx userID permissionName s).2 in
  auth s1 = stored userID permissions loadedAt (auth s) /\
  forall (ctx' : Context) (permissionName' : string) (w : World),
    time.Sub (clock w) loadedAt <= cacheTTL (auth s) ->
    HasPermission ctx' userID permissionName' {| auth := auth s1; world := w |} =
      ((hasName permissionName' permissions, None), {| auth := auth s1; world := w |}).
Proof.
  intros Hparse Hon Hmiss Hload. cbn zeta.
  rewrite (HasPermission_not_found _ _ _ uid) by auto.
  rewrite Hload, Hon. cbn. split; [reflexivity |].
  intros ctx' permissionName' w Hage.
  apply (HasPermission_hit _ _ _ uid
           {| Permissions := permissions;
              LoadedAt := clock (world s) + db_latency (db (world s)) |});
    [assumption | exact Hon | apply lookup_insert_eq | exact Hage].
Qed.

(** ** Clearing the cache *)

Lemma InvalidateAllCache_lookup (s : State) (userID : string) :
  cache (auth (InvalidateAllCache s).2) !! userID = None.
Proof.
  pose proof (sweep_lookup (fun _ => true) (cache (auth s)) (cache (auth s)) userID) as H.
  cbn in H. destruct (cache (auth s) !! userID) eqn:Hentry; exact H.
Qed.

(** X4.  [InvalidateAllCache] leaves no entry in the cache and touches
    nothing else, so that the next [HasPermission] for any identifier
    that parses sends the permission query to the store. *)
Theorem InvalidateAllCache_empties (s : State) :
  cache (auth (InvalidateAllCache s).2) = ∅ /\
  cacheTTL (auth (InvalidateAllCache s).2) = cacheTTL (auth s) /\
  enableCaching (auth (InvalidateAllCache s).2) = enableCaching (auth s) /\
  world (InvalidateAllCache s).2 = world s /\
  forall (ctx : Context) (userID permissionName : string) (uid : UUID) (w : World),
    uuid_Parse userID = inl uid ->
    queries (world (HasPermission ctx userID permissionName
                      {| auth := auth (InvalidateAllCache s).2; world := w |}).2) =
    (queries w ++ [SelectPermissions uid])%list.
Proof.
  assert (cache (auth (InvalidateAllCache s).2) = ∅) as Hempty.
  { apply map_eq. intros k. rewrite lookup_empty. apply InvalidateAllCache_lookup. }
  split; [exact Hempty |]. repeat split.
  intros ctx userID permissionName uid w Hparse.
  rewrite (HasPermission_miss_world _ _ _ uid); [reflexivity | assumption |].
  right. rewrite checkCache_eq. cbn [auth]. rewrite Hempty, lookup_empty. reflexivity.
Qed.

(** ** Rejected identifiers on the other paths *)

(** X5.  For a [userID] that [uuid.Parse] rejects, [HasRole],
    [GetUserRoles], [AssignRole] and [RemoveRole] return the parse
    error wrapped as "invalid user ID", and so do [HasAnyPermission]
    and [HasAllPermissions] on a list with at least one name; in every
    case the state is left as it was: no store call, no cache
    change. *)
Theorem rejected_userID_no_effect
    (ctx : Context) (userID roleName : string) (err : error) (s : State) :
  uuid_Parse userID = inr err ->
  let invalid := fmt_Errorf_w "invalid user ID" err in
  HasRole ctx userID roleName s = ((false, Some invalid), s) /\
  GetUserRoles ctx userID s = (([], Some invalid), s) /\
  AssignRole ctx userID roleName s = (Some invalid, s) /\
  RemoveRole ctx userID roleName s = (Some invalid, s) /\
  forall (permissionName : string) (rest : list string),
    HasAnyPermission ctx userID (permissionName :: rest) s = ((false, Some invalid), s) /\
    HasAllPermissions ctx userID (permissionName :: rest) s = ((false, Some invalid), s).
Proof.
  intros Hparse. cbn zeta.
  unfold HasRole, GetUserRoles. rewrite AssignRole_eq, RemoveRole_eq, Hparse.
  repeat split; cbn [HasAnyPermission HasAllPermissions];
    unfold mbind, Op_bind, bind;
    rewrite (HasPermission_invalid _ _ _ err) by assumption; reflexivity.
Qed.

(** ** Any and all, as membership *)

(** X6.  On a cache that agrees with the store, and for a user whose
    load succeeds with the set [permissions], [HasAnyPermission] answers
    whether some name of the list is in [permissions] and
    [HasAllPermissions] whether every name is, both without error. *)
Theorem HasAny_HasAll_membership
    (ctx : Context) (userID : string) (uid : UUID)
    (permissions : list Permission) (names : list string) (s : State) :
  coherent ctx (db (world s)) (auth s) ->
  uuid_Parse userID = inl uid ->
  loaded (db (world s)) ctx uid = (permissions, None) ->
  (HasAnyPermission ctx userID names s).1 =
    (existsb (fun name => hasName name permissions) names, None) /\
  (HasAllPermissions ctx userID names s).1 =
    (forallb (fun name => hasName name permissions) names, None).
Proof.
  intros Hcoh Hparse Hload. revert s Hcoh Hload.
  induction names as [|name rest IH]; intros s Hcoh Hload; [split; reflexivity |].
  cbn [HasAnyPermission HasAllPermissions existsb forallb].
  unfold mbind, Op_bind, bind.
  destruct (HasPermission_coherent ctx userID name s Hcoh) as (Hres & Hdb & Hcoh').
  rewrite Hparse, Hload in Hres. unfold decision in Hres. cbn in Hres.
  destruct (HasPermission ctx userID name s) as [[b e] s1]. cbn in *.
  injection Hres as -> ->.
  rewrite <- Hdb in Hcoh', Hload.
  destruct (IH s1 Hcoh' Hload) as [IHany IHall].
  destruct (hasName name permissions); cbn; split; try reflexivity; assumption.
Qed.

(** X7.  For an identifier that parses, [HasAnyPermission] and
    [HasAllPermissions] send the store nothing but permission queries
    for that user, at most one per name of the list, and never change
    the store. *)
Theorem HasAny_HasAll_store_calls
    (ctx : Context) (userID : string) (uid : UUID) (names : list string) (s : State) :
  uuid_Parse userID = inl uid ->
  (exists n : nat,
      (n <= length names)%nat /\
      db (world (HasAnyPermission ctx userID names s).2) = db (world s) /\
      queries (world (HasAnyPermission ctx userID names s).2) =
        (queries (world s) ++ replicate n (SelectPermissions uid))%list) /\
  (exists n : nat,
      (n <= length names)%nat /\
      db (world (HasAllPermissions ctx userID names s).2) = db (world s) /\
      queries (world (HasAllPermissions ctx userID names s).2) =
        (queries (world s) ++ replicate n (SelectPermissions uid))%list).
Proof.
  intros Hparse. revert s.
  induction names as [|name rest IH]; intros s.
  - split; exists 0%nat; cbn; rewrite app_nil_r; auto.
  - cbn [HasAnyPermission HasAllPermissions]. unfold mbind, Op_bind, bind.
    assert (db (world (HasPermission ctx userID name s).2) = db (world s) /\
            exists k : nat, (k <= 1)%nat /\
              queries (world (HasPermission ctx userID name s).2) =
              (queries (world s) ++ replicate k (SelectPermissions uid))%list)
      as (Hdb & k & Hk & Hqk).
    { destruct (HasPermission_world ctx userID name s) as [-> | (uid' & Hparse' & ->)].
      - split; [reflexivity |]. exists 0%nat. cbn. rewrite app_nil_r. auto.
      - assert (uid' = uid) as -> by congruence.
        split; [reflexivity |]. exists 1%nat. auto. }
    destruct (HasPermission ctx userID name s) as [[b e] s1]. cbn in Hdb, Hqk.
    destruct (IH s1) as [(n1 & Hn1 & Hdb1 & Hq1) (n2 & Hn2 & Hdb2 & Hq2)].
    assert (forall n : nat,
              ((queries (world s) ++ replicate k (SelectPermissions uid)) ++
               replicate n (SelectPermissions uid))%list =
              (queries (world s) ++ replicate (k + n) (SelectPermissions uid))%list) as Hrep.
    { intros n. rewrite <- app_assoc, replicate_add. reflexivity. }
    destruct e as [e|]; [|destruct b]; cbn; split;
      first [ exists k; cbn; (split; [lia |]); (split; [exact Hdb | exact Hqk])
            | exists (k + n1)%nat; (split; [cbn; lia |]);
              (split; [congruence | rewrite Hq1, Hqk; apply Hrep])
            | exists (k + n2)%nat; (split; [cbn; lia |]);
              (split; [congruence | rewrite Hq2, Hqk; apply Hrep]) ].
Qed.

(** ** The sweep is invisible to lookups *)

Lemma checkCache_after_sweep (userID permissionName : string) (s : State) :
  (checkCache userID permissionName (cleanExpiredCache s).2).1 =
  (checkCache userID permissionName s).1.
Proof.
  rewrite !checkCache_eq. cbn [fst]. rewrite cleanExpiredCache_lookup.
  rewrite cleanExpiredCache_eq. cbn.
  destruct (cache (auth s) !! userID) as [userPerms|]; [|reflexivity].
  destruct (bool_decide (cacheTTL (auth s) < age (clock (world s)) userPerms)) eqn:Hexp;
    [reflexivity | rewrite Hexp; reflexivity].
Qed.

(** X8.  Running the sweep before a [HasPermission] call changes
    neither the answer nor the store calls made, and a second sweep at
    the same instant removes nothing more. *)
Theorem cleanExpiredCache_transparent
    (ctx : Context) (userID permissionName : string) (s : State) :
  (HasPermission ctx userID permissionName (cleanExpiredCache s).2).1 =
    (HasPermission ctx userID permissionName s).1 /\
  world (HasPermission ctx userID permissionName (cleanExpiredCache s).2).2 =
    world (HasPermission ctx userID permissionName s).2 /\
  cache (auth (cleanExpiredCache (cleanExpiredCache s).2).2) =
    cache (auth (cleanExpiredCache s).2).
Proof.
  pose proof (checkCache_after_sweep userID permissionName s) as Hcheck.
  assert (world (cleanExpiredCache s).2 = world s) as Hworld by reflexivity.
  assert (enableCaching (auth (cleanExpiredCache s).2) = enableCaching (auth s)) as Hflag
    by reflexivity.
  split; [|split].
  - destruct (HasPermission_cases ctx userID permissionName s)
      as [[err Hparse] | [(uid & b & Hparse & Hon & Hc) | (uid & Hparse & Hmiss)]].
    + rewrite !(HasPermission_invalid _ _ _ err) by assumption. reflexivity.
    + rewrite !(HasPermission_found _ _ _ uid b); [reflexivity | assumption.. | | |];
        [assumption | congruence | congruence].
    + rewrite !(HasPermission_not_found _ _ _ uid); [| assumption.. | assumption |].
      * rewrite Hworld. reflexivity.
      * rewrite Hflag, Hcheck. exact Hmiss.
  - destruct (HasPermission_cases ctx userID permissionName s)
      as [[err Hparse] | [(uid & b & Hparse & Hon & Hc) | (uid & Hparse & Hmiss)]].
    + rewrite !(HasPermission_invalid _ _ _ err) by assumption. reflexivity.
    + rewrite !(HasPermission_found _ _ _ uid b); [reflexivity | assumption.. | | |];
        [assumption | congruence | congruence].
    + rewrite !(HasPermission_miss_world _ _ _ uid); [| assumption.. | assumption |].
      * rewrite Hworld. reflexivity.
      * rewrite Hflag, Hcheck. exact Hmiss.
  - apply map_eq. intros k. rewrite !cleanExpiredCache_lookup.
    rewrite cleanExpiredCache_eq. cbn.
    destruct (cache (auth s) !! k) as [userPerms|]; [|reflexivity].
    destruct (bool_decide (cacheTTL (auth s) < age (clock (world s)) userPerms)) eqn:Hexp;
      [reflexivity | rewrite Hexp; reflexivity].
Qed.

(** ** The keys of the cache *)

Lemma keys_parse_HasPermission (ctx : Context) (userID permissionName : string) (s : State) :
  keys_parse (auth s) ->
  keys_parse (auth (HasPermission ctx userID permissionName s).2).
Proof.
  unfold keys_parse. intros Hkeys k userPerms.
  destruct (decide (k = userID)) as [-> | Hother].
  - destruct (uuid_Parse userID) as [uid | err] eqn:Hparse; [eauto |].
    rewrite (HasPermission_invalid _ _ _ err) by assumption.
    intros He. destruct (Hkeys _ _ He) as [uid Huid]. congruence.
  - rewrite HasPermission_other_keys by assumption. apply Hkeys.
Qed.

(** X9.  Every key of the cache is a string that [uuid.Parse]
    accepts: the cache of a new Authorizer has the property, and
    [HasPermission], [HasAnyPermission], [HasAllPermissions],
    [AssignRole], [RemoveRole], the sweep, [InvalidateAllCache] and
    [SetCacheTTL] all keep it. *)
Theorem cache_keys_parse (ctx : Context) (userID name : string)
    (names : list string) (ttl : time.Duration) (s : State) :
  keys_parse (auth s) ->
  keys_parse (NewAuthorizer ttl) /\
  keys_parse (auth (HasPermission ctx userID name s).2) /\
  keys_parse (auth (HasAnyPermission ctx userID names s).2) /\
  keys_parse (auth (HasAllPermissions ctx userID names s).2) /\
  keys_parse (auth (AssignRole ctx userID name s).2) /\
  keys_parse (auth (RemoveRole ctx userID name s).2) /\
  keys_parse (auth (cleanExpiredCache s).2) /\
  keys_parse (auth (InvalidateAllCache s).2) /\
  keys_parse (auth (SetCacheTTL ttl s).2).
Proof.
  intros Hkeys.
  assert (forall s0, keys_parse (auth s0) ->
            keys_parse (auth (HasAnyPermission ctx userID names s0).2) /\
            keys_parse (auth (HasAllPermissions ctx userID names s0).2)) as Hloops.
  { induction names as [|n rest IH]; intros s0 H0; [split; exact H0 |].
    cbn [HasAnyPermission HasAllPermissions]. unfold mbind, Op_bind, bind.
    pose proof (keys_parse_HasPermission ctx userID n s0 H0) as H1.
    destruct (HasPermission ctx userID n s0) as [[b e] s1]. cbn in H1.
    destruct (IH s1 H1) as [IHany IHall].
    destruct e as [e|]; [|destruct b]; cbn; split; assumption. }
  split; [intros k e He; cbn in He; rewrite lookup_empty in He; discriminate |].
  split; [apply keys_parse_HasPermission, Hkeys |].
  split; [apply Hloops, Hkeys |]. split; [apply Hloops, Hkeys |].
  split; [|split]; [| |split; [|split]].
  - rewrite AssignRole_eq. destruct (uuid_Parse userID) as [uid | err]; [|exact Hkeys].
    cbn zeta. destruct (db_assign (db (world s)) ctx uid name).2; [exact Hkeys |].
    intros k e. rewrite invalidateCache_eq. cbn.
    intros He. apply lookup_delete_Some in He as [_ He]. eapply Hkeys, He.
  - rewrite RemoveRole_eq. destruct (uuid_Parse userID) as [uid | err]; [|exact Hkeys].
    cbn zeta. destruct (db_remove (db (world s)) ctx uid name).2; [exact Hkeys |].
    intros k e. rewrite invalidateCache_eq. cbn.
    intros He. apply lookup_delete_Some in He as [_ He]. eapply Hkeys, He.
  - intros k e. rewrite cleanExpiredCache_lookup.
    destruct (cache (auth s) !! k) as [e'|] eqn:He'; [|discriminate].
    intros _. eapply Hkeys, He'.
  - intros k e. rewrite InvalidateAllCache_lookup. discriminate.
  - exact Hkeys.
Qed.

(** ** Keys are the strings as passed *)

(** X10.  A role mutation deletes the entry stored under the very
    string it was given and no other: an entry under any other key is
    kept as it is, also when that key is another spelling that parses to
    the same UUID. *)
Theorem role_mutation_keeps_other_keys
    (ctx : Context) (userID other roleName : string) (s : State) :
  other <> userID ->
  cache (auth (AssignRole ctx userID roleName s).2) !! other = cache (auth s) !! other /\
  cache (auth (RemoveRole ctx userID roleName s).2) !! other = cache (auth s) !! other.
Proof.
  intros Hother. rewrite AssignRole_eq, RemoveRole_eq.
  destruct (uuid_Parse userID) as [uid | err]; [|split; reflexivity].
  cbn zeta.
  destruct (db_assign (db (world s)) ctx uid roleName).2,
           (db_remove (db (world s)) ctx uid roleName).2;
    rewrite ?invalidateCache_eq; cbn; split;
    try reflexivity; apply lookup_delete_ne; congruence.
Qed.

(** ** Errors *)

Lemma error_eqb_refl (e : error) : error_eqb e e = true.
Proof.
  induction e as [msg | msg inner IH]; cbn.
  - apply bool_decide_eq_true_2. reflexivity.
  - rewrite bool_decide_eq_true_2 by reflexivity. exact IH.
Qed.

Lemma errors_Is_refl (e : error) : errors_Is e e = true.
Proof. destruct e; cbn [errors_Is]; rewrite error_eqb_refl; reflexivity. Qed.

Lemma loaded_error (d : DB) (ctx : Context) (uid : UUID)
    (permissions : list Permission) (e : error) :
  loaded d ctx uid = (permissions, Some e) ->
  (db_permissions d ctx uid).2 = Some e /\ errors_Is e sql_ErrNoRows = false.
Proof.
  unfold loaded. destruct (db_permissions d ctx uid) as [rows [e'|]]; [|discriminate].
  destruct (errors_Is e' sql_ErrNoRows) eqn:His; cbn; [discriminate |].
  intros [= _ <-]. auto.
Qed.

(** X11.  For an identifier that parses, the only error
    [HasPermission] can return is the store's own error of the
    permission query, wrapped as "failed to load user permissions": the
    cause is still found in it by [errors.Is], and it never matches
    [sql.ErrNoRows]. *)
Theorem HasPermission_error_is_store_error
    (ctx : Context) (userID permissionName : string) (uid : UUID)
    (err : error) (s : State) :
  uuid_Parse userID = inl uid ->
  (HasPermission ctx userID permissionName s).1.2 = Some err ->
  exists cause,
    (db_permissions (db (world s)) ctx uid).2 = Some cause /\
    (HasPermission ctx userID permissionName s).1 =
      (false, Some (fmt_Errorf_w "failed to load user permissions" cause)) /\
    errors_Is err cause = true /\
    errors_Is err sql_ErrNoRows = false.
Proof.
  intros Hparse Herr.
  destruct (HasPermission_cases ctx userID permissionName s)
    as [[perr Hbad] | [(uid' & b & _ & Hon & Hcheck) | (uid' & Hparse' & Hmiss)]].
  - congruence.
  - rewrite (HasPermission_found _ _ _ uid b) in Herr by assumption. discriminate.
  - assert (uid' = uid) as -> by congruence.
    rewrite (HasPermission_not_found _ _ _ uid) in * by assumption. cbn in *.
    unfold decision in *.
    destruct (loaded (db (world s)) ctx uid) as [permissions [cause|]] eqn:Hload;
      cbn in *; [|discriminate].
    injection Herr as <-.
    destruct (loaded_error _ _ _ _ _ Hload) as [Hstore Hrows].
    exists cause. repeat split; [assumption | |].
    + cbn [errors_Is]. rewrite errors_Is_refl. apply orb_true_r.
    + cbn [errors_Is error_eqb sql_ErrNoRows]. exact Hrows.
Qed.

(** X12.  A store error that is, or wraps, [sql.ErrNoRows] is not a
    failure: on a miss [HasPermission] answers from the rows the query
    left, without error, and with caching enabled stores those rows as
    the user's entry. *)
Theorem HasPermission_ErrNoRows_is_success
    (ctx : Context) (userID permissionName : string) (uid : UUID)
    (rows : list Permission) (e : error) (s : State) :
  uuid_Parse userID = inl uid ->
  enableCaching (auth s) = false \/ (checkCache userID permissionName s).1.2 = false ->
  db_permissions (db (world s)) ctx uid = (rows, Some e) ->
  errors_Is e sql_ErrNoRows = true ->
  (HasPermission ctx userID permissionName s).1 = (hasName permissionName rows, None) /\
  (enableCaching (auth s) = true ->
   cache (auth (HasPermission ctx userID permissionName s).2) !! userID =
     Some {| Permissions := rows;
             LoadedAt := clock (world s) + db_latency (db (world s)) |}).
Proof.
  intros Hparse Hmiss Hstore His.
  assert (loaded (db (world s)) ctx uid = (rows, None)) as Hload.
  { unfold loaded. rewrite Hstore, His. reflexivity. }
  rewrite (HasPermission_not_found _ _ _ uid) by assumption.
  rewrite Hload. cbn. split; [reflexivity |].
  intros ->. cbn. apply lookup_insert_eq.
Qed.

(** ** Membership is by name *)

(** X13.  The answer computed from a list of permissions is the
    membership of the name among the names of the list; [Resource] and
    [Action] play no part. *)
Theorem hasName_is_name_membership (permissionName : string) (permissions : list Permission) :
  hasName permissionName permissions =
  bool_decide (permissionName ∈ Name <$> permissions).
Proof.
  induction permissions as [|p rest IH].
  - symmetry. apply bool_decide_eq_false_2. apply not_elem_of_nil.
  - cbn [hasName]. rewrite fmap_cons.
    destruct (decide (Name p = permissionName)) as [Heq | Hne].
    + rewrite (bool_decide_eq_true_2 _ Heq). symmetry.
      apply bool_decide_eq_true_2. rewrite elem_of_cons. auto.
    + rewrite (bool_decide_eq_false_2 _ Hne), IH.
      apply bool_decide_ext. rewrite elem_of_cons.
      split; [auto | intros [Heq | Hin]; [congruence | exact Hin]].
Qed.

(** ** A negative TTL *)

(** X14.  With a negative TTL no entry is ever valid at or after the
    instant it was loaded: the lookup misses and [HasPermission] sends
    the permission query to the store on every call. *)
Theorem negative_TTL_never_hits
    (ctx : Context) (userID permissionName : string) (uid : UUID)
    (userPerms : UserPermissions) (s : State) :
  cacheTTL (auth s) < 0 ->
  cache (auth s) !! userID = Some userPerms ->
  LoadedAt userPerms <= clock (world s) ->
  uuid_Parse userID = inl uid ->
  checkCache userID permissionName s = ((false, false), s) /\
  queries (world (HasPermission ctx userID permissionName s).2) =
    (queries (world s) ++ [SelectPermissions uid])%list.
Proof.
  intros Hneg Hentry Hafter Hparse.
  assert (checkCache userID permissionName s = ((false, false), s)) as Hcheck.
  { rewrite checkCache_eq, Hentry. rewrite bool_decide_eq_true_2; [reflexivity |].
    unfold age, time.Sub, time.maxDuration, time.minDuration.
    repeat case_bool_decide; lia. }
  split; [exact Hcheck |].
  rewrite (HasPermission_miss_world _ _ _ uid); [reflexivity | assumption |].
  right. rewrite Hcheck. reflexivity.
Qed.

(** ** Switching the cache off and on again *)

(** X15.  [DisableCache], a [HasPermission] call and [EnableCache], in
    this order, leave an Authorizer that had caching enabled exactly as
    it was: the load made meanwhile is not stored, and the entries
    cached before are the ones served afterwards. *)
Theorem disable_lookup_enable_restores
    (ctx : Context) (userID permissionName : string) (s : State) :
  enableCaching (auth s) = true ->
  auth (EnableCache (HasPermission ctx userID permissionName (DisableCache s).2).2).2 =
  auth s.
Proof.
  intros Hon.
  assert (auth (HasPermission ctx userID permissionName (DisableCache s).2).2 =
          auth (DisableCache s).2) as Hkept.
  { destruct (uuid_Parse userID) as [uid | err] eqn:Hparse.
    - rewrite (HasPermission_not_found _ _ _ uid); [| assumption | left; reflexivity].
      destruct (loaded (db (world (DisableCache s).2)) ctx uid) as [permissions [e|]];
        reflexivity.
    - rewrite (HasPermission_invalid _ _ _ err) by assumption. reflexivity. }
  unfold EnableCache. unfold mbind, Op_bind, bind, get_auth, put_auth. cbn.
  rewrite Hkept. unfold DisableCache, mbind, Op_bind, bind, get_auth, put_auth.
  destruct s as [[c ttl flag] w]. cbn in *. congruence.
Qed.

End MoreProperties.

(** * Configuration *)

(** X16.  Of the integer settings, [Load] touches the bcrypt cost
    only: a cost below 10 becomes 10, a cost above 31 becomes 31, a cost
    in between is kept, so that the loaded cost is always within
    [10, 31]; the cache settings are passed on as parsed. *)
Theorem Load_bounds_BcryptCost (cfg : config.Config) :
  10 <= config.BcryptCost (config.Load cfg) <= 31 /\
  (config.BcryptCost cfg < 10 -> config.BcryptCost (config.Load cfg) = 10) /\
  (31 < config.BcryptCost cfg -> config.BcryptCost (config.Load cfg) = 31) /\
  (10 <= config.BcryptCost cfg <= 31 ->
   config.BcryptCost (config.Load cfg) = config.BcryptCost cfg) /\
  config.CacheTTLMinutes (config.Load cfg) = config.CacheTTLMinutes cfg /\
  config.CacheCleanupIntervalMinutes (config.Load cfg) =
    config.CacheCleanupIntervalMinutes cfg.
Proof.
  destruct cfg as [cost ttl interval]. unfold config.Load. cbn.
  split; [repeat case_bool_decide; lia |].
  split; [intros Hcost; repeat case_bool_decide; lia |].
  split; [intros Hcost; repeat case_bool_decide; lia |].
  split; [intros Hcost; repeat case_bool_decide; lia |].
  split; reflexivity.
Qed.

Lemma wrap64_exact (z : Z) : - 2 ^ 63 <= z < 2 ^ 63 -> config.wrap64 z = z.
Proof.
  intros Hrange. unfold config.wrap64.
  rewrite Z.mod_small by lia. lia.
Qed.

(** X17.  For a setting of at most 153722867 minutes in absolute
    value the product with [time.Minute] does not overflow: [CacheTTL]
    and [CacheCleanupInterval] are that many minutes, of the sign of the
    setting; with the default of 5 minutes a new Authorizer has the TTL
    [DefaultCacheTTL]. *)
Theorem config_durations_exact (c : config.Config) :
  (- 153722867 <= config.CacheTTLMinutes c <= 153722867 ->
   config.CacheTTL c = config.CacheTTLMinutes c * config.Minute) /\
  (- 153722867 <= config.CacheCleanupIntervalMinutes c <= 153722867 ->
   config.CacheCleanupInterval c = config.CacheCleanupIntervalMinutes c * config.Minute) /\
  (config.CacheTTLMinutes c = 5 ->
   cacheTTL (NewAuthorizer (config.CacheTTL c)) = constants.DefaultCacheTTL).
Proof.
  unfold config.CacheTTL, config.CacheCleanupInterval, config.Minute.
  repeat split.
  - intros Hrange. apply wrap64_exact. lia.
  - intros Hrange. apply wrap64_exact. lia.
  - intros ->. reflexivity.
Qed.

(** X18.  [getCacheCleanupInterval] returns the default of ten minutes
    when the variable is empty or unset, when it is not a number, and
    when the number is zero or negative; for a number of minutes from 1
    to 153722867 it returns that many minutes, a positive interval. *)
Theorem getCacheCleanupInterval_cases
    (Getenv : string -> string) (Atoi : string -> Z + error) :
  let value := Getenv constants.EnvCacheCleanupInterval in
  (value = "" ->
   getCacheCleanupInterval Getenv Atoi = constants.DefaultCacheCleanupInterval) /\
  (forall e, Atoi value = inr e ->
   getCacheCleanupInterval Getenv Atoi = constants.DefaultCacheCleanupInterval) /\
  (forall minutes, Atoi value = inl minutes -> minutes <= 0 ->
   getCacheCleanupInterval Getenv Atoi = constants.DefaultCacheCleanupInterval) /\
  (forall minutes, value <> "" -> Atoi value = inl minutes ->
   0 < minutes <= 153722867 ->
   getCacheCleanupInterval Getenv Atoi = minutes * config.Minute /\
   0 < getCacheCleanupInterval Getenv Atoi).
Proof.
  cbn zeta. unfold getCacheCleanupInterval. split; [|split; [|split]].
  - intros ->. reflexivity.
  - intros e ->. case_bool_decide; reflexivity.
  - intros minutes -> Hle. case_bool_decide; [|reflexivity].
    rewrite bool_decide_eq_false_2 by lia. reflexivity.
  - intros minutes Hset Hnumber Hrange.
    rewrite bool_decide_eq_true_2 by assumption. rewrite Hnumber.
    rewrite bool_decide_eq_true_2 by lia.
    rewrite wrap64_exact by (unfold config.Minute; lia).
    unfold config.Minute. lia.
Qed.


(** * The properties on the concrete store *)

Import Fixture.

(** [primed] is the cache a first lookup leaves. *)
Example first_lookup_primes_cache :
  HasPermission background U "user.read" (start (NewAuthorizer (5 * minute)) 0 store) =
  ((true, None),
   {| auth := primed;
      world := {| clock := 1000000; db := store; queries := [SelectPermissions U] |} |}).
Proof. vm_compute. reflexivity. Qed.

(** C1, as stated, fails: at the instant the entry is exactly as old as
    the TTL, so that its age is not below the TTL, [checkCache] still
    answers from it. *)
Lemma checkCache_hit_at_age_equal_TTL :
  cache (auth (start primed at_TTL store)) !! U = Some loadedU /\
  age (clock (world (start primed at_TTL store))) loadedU = cacheTTL primed /\
  ~ age (clock (world (start primed at_TTL store))) loadedU < cacheTTL primed /\
  checkCache U "user.read" (start primed at_TTL store) =
    ((true, true), start primed at_TTL store).
Proof.
  split; [vm_compute; reflexivity |].
  split; [vm_compute; reflexivity |].
  split; [vm_compute; intros H; discriminate H |].
  vm_compute. reflexivity.
Qed.

(** One nanosecond later the entry has expired: the lookup misses and
    [HasPermission] sends the permission query to the store. *)
Lemma checkCache_hit_iff_age_within_TTL_witness :
  cache (auth (start primed past_TTL store)) !! U = Some loadedU /\
  cacheTTL primed < age (clock (world (start primed past_TTL store))) loadedU /\
  checkCache U "user.read" (start primed past_TTL store) =
    ((false, false), start primed past_TTL store) /\
  queries (world (HasPermission background U "user.read"
                    (start primed past_TTL store)).2) =
    [SelectPermissions U].
Proof.
  assert (cache (auth (start primed past_TTL store)) !! U = Some loadedU) as Hentry
    by (vm_compute; reflexivity).
  assert (cacheTTL primed < age (clock (world (start primed past_TTL store))) loadedU)
    as Hold by (vm_compute; reflexivity).
  destruct (checkCache_hit_iff_age_within_TTL (env := Fixture.env) U "user.read" loadedU
              (start primed past_TTL store) Hentry) as (_ & _ & Hexpired & _).
  destruct (Hexpired Hold) as [Hmiss Hload].
  destruct (Hload background U) as [_ Hquery]; [vm_compute; reflexivity |].
  split; [exact Hentry |]. split; [exact Hold |]. split; [exact Hmiss |].
  exact Hquery.
Defined.




(** C4, as stated, fails: [RemoveRole] given the upper-case spelling
    of [U] commits for the same UUID, yet the entry stored under [U]
    stays, and the next [HasPermission] for [U] is answered [true] from
    it without a store call while the store now grants nothing. *)
Lemma role_mutation_misses_other_spelling :
  uuid_Parse Spelling.U_upper = inl U /\
  uuid_Parse U = inl U /\
  (RemoveRole background Spelling.U_upper "user" (start primed 0 store)).1 = None /\
  cache (auth (RemoveRole background Spelling.U_upper "user" (start primed 0 store)).2) !! U =
    Some loadedU /\
  HasPermission background U "user.read"
    (RemoveRole background Spelling.U_upper "user" (start primed 0 store)).2 =
    ((true, None), (RemoveRole background Spelling.U_upper "user" (start primed 0 store)).2) /\
  queries (world (RemoveRole background Spelling.U_upper "user" (start primed 0 store)).2) =
    [ExecRemove U "user"] /\
  db_permissions
    (db (world (RemoveRole background Spelling.U_upper "user" (start primed 0 store)).2))
    background U = ([], None).
Proof. repeat split; vm_compute; reflexivity. Qed.

(** On [primed], whose entry for [U] is valid: [AssignRole] and
    [RemoveRole] given [U] both commit, delete the entry and make the
    next [HasPermission] for [U] query the store; under a cancelled
    context both fail and [primed] is kept. *)
Lemma role_mutation_invalidates_cache_witness :
  ((AssignRole background U "admin" (start primed 0 store)).1 = None /\
   cache (auth (AssignRole background U "admin" (start primed 0 store)).2) !! U = None /\
   queries (world (HasPermission background U "user.read"
                     (AssignRole background U "admin" (start primed 0 store)).2).2) =
     [ExecAssign U "admin"; SelectPermissions U]) /\
  ((RemoveRole background U "user" (start primed 0 store)).1 = None /\
   cache (auth (RemoveRole background U "user" (start primed 0 store)).2) !! U = None /\
   queries (world (HasPermission background U "user.read"
                     (RemoveRole background U "user" (start primed 0 store)).2).2) =
     [ExecRemove U "user"; SelectPermissions U]) /\
  ((AssignRole cancelled U "admin" (start primed 0 store)).1 =
     Some (fmt_Errorf_w "failed to assign role" context_Canceled) /\
   auth (AssignRole cancelled U "admin" (start primed 0 store)).2 = primed) /\
  ((RemoveRole cancelled U "user" (start primed 0 store)).1 =
     Some (fmt_Errorf_w "failed to remove role" context_Canceled) /\
   auth (RemoveRole cancelled U "user" (start primed 0 store)).2 = primed).
Proof.
  assert (uuid_Parse U = inl U) as Hparse by (vm_compute; reflexivity).
  destruct (role_mutation_invalidates_cache (env := Fixture.env) background U "admin"
              (start primed 0 store)) as (Hassign & _ & _ & _ & Hcommit).
  destruct (role_mutation_invalidates_cache (env := Fixture.env) background U "user"
              (start primed 0 store)) as (_ & Hremove & _ & _ & Hcommit').
  destruct (role_mutation_invalidates_cache (env := Fixture.env) cancelled U "admin"
              (start primed 0 store)) as (_ & _ & Hkeep & _ & Hfail).
  destruct (role_mutation_invalidates_cache (env := Fixture.env) cancelled U "user"
              (start primed 0 store)) as (_ & _ & _ & Hkeep' & Hfail').
  destruct (Hcommit U Hparse) as (Hnil & _).
  destruct (Hcommit' U Hparse) as (_ & Hnil' & _).
  destruct (Hfail U Hparse) as (Herr & _).
  destruct (Hfail' U Hparse) as (_ & Herr' & _).
  split; [|split; [|split]].
  - destruct (Hassign (AssignRole (env := Fixture.env) background U "admin" (start primed 0 store)).2)
      as (uid & Huid & Hq & Hdel & _ & _ & Hnext); [vm_compute; reflexivity |].
    assert (uid = U) as -> by congruence.
    split; [exact Hnil |]. split; [rewrite Hdel; apply lookup_delete_eq |].
    specialize (Hnext background "user.read"
                  (world (AssignRole (env := Fixture.env) background U "admin" (start primed 0 store)).2)).
    rewrite Hq in Hnext. exact Hnext.
  - destruct (Hremove (RemoveRole (env := Fixture.env) background U "user" (start primed 0 store)).2)
      as (uid & Huid & Hq & Hdel & _ & _ & Hnext); [vm_compute; reflexivity |].
    assert (uid = U) as -> by congruence.
    split; [exact Hnil' |]. split; [rewrite Hdel; apply lookup_delete_eq |].
    specialize (Hnext background "user.read"
                  (world (RemoveRole (env := Fixture.env) background U "user" (start primed 0 store)).2)).
    rewrite Hq in Hnext. exact Hnext.
  - split; [exact Herr |].
    apply (Hkeep (fmt_Errorf_w "failed to assign role" context_Canceled)).
    vm_compute. reflexivity.
  - split; [exact Herr' |].
    apply (Hkeep' (fmt_Errorf_w "failed to remove role" context_Canceled)).
    vm_compute. reflexivity.
Defined.

(** ["not-a-uuid"] is rejected before the cache or the store is
    touched. *)
Lemma HasPermission_invalid_userID_no_effect_witness :
  uuid_Parse "not-a-uuid" = inr (errors_New "invalid UUID format") /\
  HasPermission background "not-a-uuid" "x" (start primed 0 store) =
    ((false, Some (fmt_Errorf_w "invalid user ID" (errors_New "invalid UUID format"))),
     start primed 0 store).
Proof.
  assert (uuid_Parse "not-a-uuid" = inr (errors_New "invalid UUID format")) as Hparse
    by (vm_compute; reflexivity).
  split; [exact Hparse |].
  exact (proj1 (HasPermission_invalid_userID_no_effect (env := Fixture.env) background "not-a-uuid" "x"
                  (errors_New "invalid UUID format") (start primed 0 store) Hparse)).
Defined.

(** With a valid entry for [U] in the cache, [HasRole] and
    [GetUserRoles] still go to the store and leave [primed] alone. *)
Lemma role_queries_bypass_cache_witness :
  uuid_Parse U = inl U /\
  auth (HasRole background U "user" (start primed 0 store)).2 = primed /\
  queries (world (HasRole background U "user" (start primed 0 store)).2) =
    [GetRoleExists U "user"] /\
  queries (world (GetUserRoles background U (start primed 0 store)).2) =
    [SelectRoles U].
Proof.
  assert (uuid_Parse U = inl U) as Hparse by (vm_compute; reflexivity).
  destruct (role_queries_bypass_cache (env := Fixture.env) background U "user" U (start primed 0 store) Hparse)
    as [(Hauth & Hquery & _) (_ & Hquery' & _)].
  split; [exact Hparse |]. split; [exact Hauth |]. split; [exact Hquery | exact Hquery'].
Defined.

(** ** The scenario of the specification *)

Example scenario_permissions :
  (HasPermission background U "user.read" (start (NewAuthorizer (5 * minute)) 0 store)).1 =
    (true, None) /\
  (HasPermission background U "user.delete" (start (NewAuthorizer (5 * minute)) 0 store)).1 =
    (false, None) /\
  (HasAllPermissions background U ["user.read"; "user.update"]
     (start (NewAuthorizer (5 * minute)) 0 store)).1 = (true, None) /\
  (HasAnyPermission background U ["user.delete"; "user.read"]
     (start (NewAuthorizer (5 * minute)) 0 store)).1 = (true, None).
Proof. vm_compute. repeat split. Qed.

(** After [RemoveRole(U, "user")] the next lookup goes to the store and
    answers [false], although the entry of [primed] was still valid. *)
Example scenario_remove_role :
  (HasPermission background U "user.read"
     (RemoveRole background U "user" (start primed 0 store)).2).1 = (false, None).
Proof. vm_compute. reflexivity. Qed.

(** The sweep at [past_TTL] empties [primed]; at [at_TTL] it keeps the
    entry. *)
Example sweep_primed :
  cache (auth (cleanExpiredCache (start primed past_TTL store)).2) !! U = None /\
  cache (auth (cleanExpiredCache (start primed at_TTL store)).2) !! U = Some loadedU.
Proof. vm_compute. split; reflexivity. Qed.

(** * The further properties on the concrete store *)

(** A first lookup fills the cache with [primed]; a lookup at the
    instant the entry is as old as the TTL is then answered from it
    although the context is cancelled. *)
Lemma HasPermission_fill_then_hit_witness :
  auth (HasPermission background U "user.read"
          (start (NewAuthorizer (5 * minute)) 0 store)).2 = primed /\
  HasPermission cancelled U "user.update" (start primed at_TTL store) =
    ((true, None), start primed at_TTL store).
Proof.
  pose proof (HasPermission_fill_then_hit (env := Fixture.env) background U "user.read" U
                (permissions_of store U) (start (NewAuthorizer (5 * minute)) 0 store)) as H.
  destruct H as [Hfill Hhit]; try (vm_compute; reflexivity).
  split; [rewrite Hfill; vm_compute; reflexivity |].
  assert (auth (HasPermission background U "user.read"
                  (start (NewAuthorizer (5 * minute)) 0 store)).2 = primed) as Hprimed
    by (rewrite Hfill; vm_compute; reflexivity).
  specialize (Hhit cancelled "user.update" (world (start primed at_TTL store))).
  rewrite Hprimed in Hhit.
  apply Hhit. vm_compute. intros Hcmp. discriminate Hcmp.
Defined.

(** With caching disabled the valid entry of [primed] is not used: the
    store is queried and [primed] stays as it is but for the flag. *)
Lemma HasPermission_disabled_witness :
  uuid_Parse U = inl U /\
  enableCaching (auth (DisableCache (start primed 0 store)).2) = false /\
  queries (world (HasPermission background U "user.read"
                    (DisableCache (start primed 0 store)).2).2) =
    [SelectPermissions U].
Proof.
  assert (uuid_Parse U = inl U) as Hparse by (vm_compute; reflexivity).
  assert (enableCaching (auth (DisableCache (start primed 0 store)).2) = false) as Hoff
    by (vm_compute; reflexivity).
  split; [exact Hparse |]. split; [exact Hoff |].
  rewrite (HasPermission_disabled (env := Fixture.env) background U "user.read" U
             (DisableCache (start primed 0 store)).2 Hparse Hoff).
  vm_compute. reflexivity.
Defined.

Lemma rejected_userID_no_effect_witness :
  uuid_Parse "not-a-uuid" = inr (errors_New "invalid UUID format") /\
  AssignRole background "not-a-uuid" "admin" (start primed 0 store) =
    (Some (fmt_Errorf_w "invalid user ID" (errors_New "invalid UUID format")),
     start primed 0 store).
Proof.
  assert (uuid_Parse "not-a-uuid" = inr (errors_New "invalid UUID format")) as Hparse
    by (vm_compute; reflexivity).
  split; [exact Hparse |].
  destruct (rejected_userID_no_effect (env := Fixture.env) background "not-a-uuid" "admin"
              (errors_New "invalid UUID format") (start primed 0 store) Hparse)
    as (_ & _ & Hassign & _).
  exact Hassign.
Defined.

Lemma HasAny_HasAll_membership_witness :
  (HasAnyPermission background U ["user.delete"; "user.read"]
     (start (NewAuthorizer (5 * minute)) 0 store)).1 = (true, None) /\
  (HasAllPermissions background U ["user.delete"; "user.read"]
     (start (NewAuthorizer (5 * minute)) 0 store)).1 = (false, None).
Proof.
  destruct (HasAny_HasAll_membership (env := Fixture.env) background U U
              (permissions_of store U) ["user.delete"; "user.read"]
              (start (NewAuthorizer (5 * minute)) 0 store)) as [Hany Hall].
  - apply coherent_empty. reflexivity.
  - vm_compute. reflexivity.
  - vm_compute. reflexivity.
  - split; [rewrite Hany | rewrite Hall]; vm_compute; reflexivity.
Defined.

Lemma HasAny_HasAll_store_calls_witness :
  uuid_Parse U = inl U /\
  exists n : nat,
    (n <= 2)%nat /\
    queries (world (HasAnyPermission background U ["user.delete"; "user.read"]
                      (start primed 0 store)).2) =
      replicate n (SelectPermissions U).
Proof.
  assert (uuid_Parse U = inl U) as Hparse by (vm_compute; reflexivity).
  split; [exact Hparse |].
  destruct (HasAny_HasAll_store_calls (env := Fixture.env) background U U
              ["user.delete"; "user.read"] (start primed 0 store) Hparse)
    as [(n & Hn & _ & Hq) _].
  exists n. split; [exact Hn | exact Hq].
Defined.

Lemma cache_keys_parse_witness :
  keys_parse (env := Fixture.env) (NewAuthorizer (5 * minute)) /\
  keys_parse (env := Fixture.env)
    (auth (HasPermission background U "user.read"
             (start (NewAuthorizer (5 * minute)) 0 store)).2).
Proof.
  assert (keys_parse (env := Fixture.env)
            (auth (start (NewAuthorizer (5 * minute)) 0 store))) as Hkeys.
  { intros k e He. cbn in He. rewrite lookup_empty in He. discriminate He. }
  destruct (cache_keys_parse (env := Fixture.env) background U "user.read" []
              (5 * minute) (start (NewAuthorizer (5 * minute)) 0 store) Hkeys)
    as (Hnew & Hcall & _).
  split; [exact Hnew | exact Hcall].
Defined.

(** [AssignRole] under the upper-case spelling of [U] succeeds for the
    same UUID and leaves the entry stored under [U] in place. *)
Lemma role_mutation_keeps_other_keys_witness :
  U <> Spelling.U_upper /\
  uuid_Parse Spelling.U_upper = uuid_Parse U /\
  (AssignRole background Spelling.U_upper "admin" (start primed 0 store)).1 = None /\
  cache (auth (AssignRole background Spelling.U_upper "admin" (start primed 0 store)).2) !! U =
    Some loadedU.
Proof.
  assert (U <> Spelling.U_upper) as Hne by (intros Heq; discriminate Heq).
  split; [exact Hne |].
  split; [vm_compute; reflexivity |].
  split; [vm_compute; reflexivity |].
  destruct (role_mutation_keeps_other_keys (env := Fixture.env) background
              Spelling.U_upper U "admin" (start primed 0 store) Hne) as [Hassign _].
  rewrite Hassign. vm_compute. reflexivity.
Defined.

Lemma HasPermission_error_is_store_error_witness :
  (HasPermission cancelled U "user.read" (start primed past_TTL store)).1.2 =
    Some (fmt_Errorf_w "failed to load user permissions" context_Canceled) /\
  exists cause,
    errors_Is (fmt_Errorf_w "failed to load user permissions" context_Canceled) cause = true /\
    (db_permissions (db (world (start primed past_TTL store))) cancelled U).2 = Some cause.
Proof.
  assert ((HasPermission cancelled U "user.read" (start primed past_TTL store)).1.2 =
          Some (fmt_Errorf_w "failed to load user permissions" context_Canceled)) as Herr
    by (vm_compute; reflexivity).
  split; [exact Herr |].
  destruct (HasPermission_error_is_store_error (env := Fixture.env) cancelled U "user.read" U
              (fmt_Errorf_w "failed to load user permissions" context_Canceled)
              (start primed past_TTL store)) as (cause & Hstore & _ & His & _).
  - vm_compute. reflexivity.
  - exact Herr.
  - exists cause. split; [exact His | exact Hstore].
Defined.

(** A user without roles, on a store that reports [sql.ErrNoRows]: the
    answer is [false] without error and the empty set is cached. *)
Lemma HasPermission_ErrNoRows_is_success_witness :
  db_permissions (Env := NoRows.env) store background NoRows.stranger =
    ([], Some sql_ErrNoRows) /\
  (HasPermission (env := NoRows.env) background NoRows.stranger "user.read"
     NoRows.fresh).1 = (false, None).
Proof.
  assert (db_permissions (Env := NoRows.env) store background NoRows.stranger =
          ([], Some sql_ErrNoRows)) as Hstore by (vm_compute; reflexivity).
  split; [exact Hstore |].
  destruct (HasPermission_ErrNoRows_is_success (env := NoRows.env) background
              NoRows.stranger "user.read" NoRows.stranger [] sql_ErrNoRows NoRows.fresh)
    as [Hanswer _].
  - vm_compute. reflexivity.
  - right. vm_compute. reflexivity.
  - exact Hstore.
  - vm_compute. reflexivity.
  - exact Hanswer.
Defined.

Lemma negative_TTL_never_hits_witness :
  checkCache U "user.read"
    (start {| cache := {[ U := loadedU ]}; cacheTTL := -1; enableCaching := true |}
       1000000 store) =
  ((false, false),
   start {| cache := {[ U := loadedU ]}; cacheTTL := -1; enableCaching := true |}
     1000000 store).
Proof.
  destruct (negative_TTL_never_hits (env := Fixture.env) background U "user.read" U loadedU
              (start {| cache := {[ U := loadedU ]}; cacheTTL := -1; enableCaching := true |}
                 1000000 store)) as [Hmiss _].
  - vm_compute. reflexivity.
  - vm_compute. reflexivity.
  - vm_compute. intros Hcmp. discriminate Hcmp.
  - vm_compute. reflexivity.
  - exact Hmiss.
Defined.

Lemma disable_lookup_enable_restores_witness :
  enableCaching primed = true /\
  auth (EnableCache
          (HasPermission background U "user.read"
             (DisableCache (start primed past_TTL store)).2).2).2 = primed.
Proof.
  assert (enableCaching (auth (start primed past_TTL store)) = true) as Hon by reflexivity.
  split; [exact Hon |].
  exact (disable_lookup_enable_restores (env := Fixture.env) background U "user.read"
           (start primed past_TTL store) Hon).
Defined.

Lemma Load_bounds_BcryptCost_witness :
  config.BcryptCost
    (config.Load {| config.BcryptCost := 4; config.CacheTTLMinutes := 5;
                    config.CacheCleanupIntervalMinutes := 10 |}) = 10.
Proof.
  destruct (Load_bounds_BcryptCost
              {| config.BcryptCost := 4; config.CacheTTLMinutes := 5;
                 config.CacheCleanupIntervalMinutes := 10 |}) as (_ & Hlow & _).
  apply Hlow. cbn. lia.
Defined.

Lemma config_durations_exact_witness :
  config.CacheTTL {| config.BcryptCost := 12; config.CacheTTLMinutes := 30;
                     config.CacheCleanupIntervalMinutes := 10 |} = 30 * config.Minute.
Proof.
  apply (proj1 (config_durations_exact
                  {| config.BcryptCost := 12; config.CacheTTLMinutes := 30;
                     config.CacheCleanupIntervalMinutes := 10 |})).
  cbn. lia.
Defined.

Lemma getCacheCleanupInterval_cases_witness :
  getCacheCleanupInterval Spelling.env_unset Spelling.atoi_digit =
    constants.DefaultCacheCleanupInterval /\
  getCacheCleanupInterval Spelling.env_three Spelling.atoi_digit = 3 * config.Minute.
Proof.
  split.
  - apply (proj1 (getCacheCleanupInterval_cases Spelling.env_unset Spelling.atoi_digit)).
    reflexivity.
  - destruct (getCacheCleanupInterval_cases Spelling.env_three Spelling.atoi_digit)
      as (_ & _ & _ & Hnumber).
    destruct (Hnumber 3) as [Hvalue _].
    + vm_compute. intros Heq. discriminate Heq.
    + vm_compute. reflexivity.
    + lia.
    + exact Hvalue.
Defined.

(** The lookup after [AssignRole] under the other spelling: the entry
    stored under [U] still answers, without a store call, that
    [user.delete] is not granted, although the store grants it now. *)
Example stale_entry_under_other_spelling :
  (HasPermission background U "user.delete"
     (AssignRole background Spelling.U_upper "admin" (start primed 0 store)).2).1 =
    (false, None) /\
  (db_permissions
     (db (world (AssignRole background Spelling.U_upper "admin" (start primed 0 store)).2))
     background U).1 =
    [perm "user.read" "user" "read"; perm "user.update" "user" "update";
     perm "user.delete" "user" "delete"].
Proof. vm_compute. split; reflexivity. Qed.
